(** * Kahooter: a shallow embedding of the bot swarm and its orchestration

    The development follows the layout of the Python sources:

    - [py]: the few pieces of Python semantics the code relies on
      (exceptions, [str], [str.rjust], [random.randint], [any]/[all]);
    - [chromedriver_manager]: [should_download] and [install] over a model
      of the host (installed Chrome, remote index, local files);
    - [bot]: the [Bot] object, its join phase ([prepare]) and its voting
      loop ([vote_loop]) as a program-point machine;
    - [manager]: [BotManager.__init__], the username allocator, [run] and
      [cleanup];
    - [entry]: [main] and the exit status of the interpreter.

    Everything the program observes from outside (the browser, the network,
    the random generator, the operator) is supplied as explicit scripts, so
    every function below is executable. *)

From Stdlib Require Import ZArith Ascii String DecimalString List Lia.
From stdpp Require Import base list strings gmap.

#[local] Open Scope string_scope.
#[local] Open Scope list_scope.
#[local] Open Scope Z_scope.

(** ** Python primitives *)

Module py.

(** The exceptions the sources raise or let through. *)
Inductive exn : Type :=
  | TimeoutException
  | ElementClickInterceptedException
  | NoSuchElementException
  | WebDriverException
  | AttributeError (attribute : string)
  | KeyError (key : string)
  | ValueError (msg : string)
  | UnboundLocalError (variable : string)
  | FileNotFoundError (path : string)
  | Exception (msg : string)
  | KeyboardInterrupt.

(** Python's [except Exception] catches everything but [KeyboardInterrupt]
    (a [BaseException]). *)
Definition is_Exception (e : exn) : bool :=
  match e with
  | KeyboardInterrupt => false
  | _ => true
  end.

(** The result of running a piece of code against finite scripts: it
    returned, it raised, or it is still running when the scripts end. *)
Inductive outcome (A : Type) : Type :=
  | Ok (a : A)
  | Raise (e : exn)
  | Pending.
Arguments Ok {A} a.
Arguments Raise {A} e.
Arguments Pending {A}.

#[export] Instance outcome_ret : MRet outcome := fun A a => Ok a.
#[export] Instance outcome_bind : MBind outcome := fun A B f m =>
  match m with
  | Ok a => f a
  | Raise e => Raise e
  | Pending => Pending
  end.

Definition returned {A} (o : outcome A) : bool :=
  match o with Ok _ => true | _ => false end.

(** [str(n)] for an [int]. *)
Definition str (n : Z) : string := NilEmpty.string_of_int (Z.to_int n).

Fixpoint replicate_char (n : nat) (c : ascii) : string :=
  match n with
  | O => EmptyString
  | S n' => String c (replicate_char n' c)
  end.

(** [s.rjust(width, fill)]: pad on the left up to [width]. *)
Definition rjust (width : nat) (fill : ascii) (s : string) : string :=
  replicate_char (width - String.length s) fill +:+ s.

(** [random.randint(a, b)]: [a + _randbelow(b - a + 1)], and a
    [ValueError] on an empty range. The generator is a script of raw
    draws; [_randbelow(n)] reduces one draw [r] into [0, n). *)
Definition randint (a b : Z) (r : Z) : outcome Z :=
  if b - a + 1 <=? 0
  then Raise (ValueError "empty range for randrange()")
  else Ok (a + r mod (b - a + 1)).

(** [any(xs)], [all(xs)], [xs.count(True)]. *)
Definition any (xs : list bool) : bool := existsb id xs.
Definition all (xs : list bool) : bool := forallb id xs.
Definition count_True (xs : list bool) : nat := length (filter (fun b => b = true) xs).

(** What the program does to the outside world, in order. *)
Inductive log_level : Type := DEBUG | INFO | WARNING | ERROR | CRITICAL.

Inductive event : Type :=
  | Log (level : log_level) (msg : string)
  | Download (url : string)
  | SendKeys (session : nat) (element : string) (text : string)
  | Click (session : nat) (selector : string)
  | ThreadStart (bot : nat)
  | ThreadJoin (bot : nat)
  | DriverQuit (session : nat).

#[export] Instance exn_eq_dec : EqDecision exn.
Proof. solve_decision. Defined.
#[export] Instance log_level_eq_dec : EqDecision log_level.
Proof. solve_decision. Defined.
#[export] Instance event_eq_dec : EqDecision event.
Proof. solve_decision. Defined.
#[export] Instance outcome_eq_dec {A} `{EqDecision A} : EqDecision (outcome A).
Proof. solve_decision. Defined.

End py.
Import py.

(** ** manager.py: the username allocator and the vote function *)

Module allocator.

(** The candidate built from one draw:
    ["user" + str(random.randint(0, 9999)).rjust(4, "0")]. *)
Definition candidate (r : Z) : outcome string :=
  n ← randint 0 9999 r; Ok ("user" +:+ rjust 4 "0" (str n)).

(** [BotManager.__generate_unused_username]: draw until the candidate is
    not in [generated_usernames], append it, return it. The function
    consumes the script of draws; [Pending] means the [while] is still
    spinning when the script ends. Returns the name, the new list and the
    rest of the script. This is one call from its first draw to its
    return with no other call in between; calls overlapping on the
    threads of a pool are in [allocator_threads]. *)
Fixpoint generate_unused_username (draws : list Z) (generated_usernames : list string)
  : outcome (string * list string * list Z) :=
  match draws with
  | [] => Pending
  | r :: draws' =>
      match candidate r with
      | Ok username =>
          if bool_decide (username ∈ generated_usernames)
          then generate_unused_username draws' generated_usernames
          else Ok (username, generated_usernames ++ [username], draws')
      | Raise e => Raise e
      | Pending => Pending
      end
  end.

(** The vote function handed to every bot by [__create_bot]:
    [lambda answers_count: random.randint(0, answers_count - 1)]. *)
Definition vote_function (answers_count : Z) (r : Z) : outcome Z :=
  randint 0 (answers_count - 1) r.

(** The names [user0000] ... [user9999]. *)
Definition all_candidates : list string :=
  map (fun n => "user" +:+ rjust 4 "0" (str (Z.of_nat n))) (seq 0 (Z.to_nat 10000)).

End allocator.

(** *** The allocator called from the threads of a pool *)

Module allocator_threads.

(** Where a thread is inside [__generate_unused_username]: about to
    evaluate the condition of the [while] (draw, build the candidate,
    test it against the list), past the loop and about to append the
    name, or back in its caller with the name. *)
Inductive pc : Type :=
  | Testing
  | Appending (username : string)
  | Returned (username : string).

(** What the threads share, the list of the manager and the random
    generator, and where each thread is. *)
Record state : Type := {
  generated_usernames : list string;
  draws : list Z;
  threads : list pc
}.

(** One move of thread [i]. The test [username in self.generated_usernames]
    and the call [self.generated_usernames.append(username)] are two
    separate operations, and the method takes no lock: another thread
    can move between them. *)
Definition step (i : nat) (s : state) : state :=
  match threads s !! i with
  | Some Testing =>
      match draws s with
      | [] => s
      | r :: rest =>
          match allocator.candidate r with
          | Ok username =>
              if bool_decide (username ∈ generated_usernames s)
              then {| generated_usernames := generated_usernames s; draws := rest;
                      threads := threads s |}
              else {| generated_usernames := generated_usernames s; draws := rest;
                      threads := <[i := Appending username]> (threads s) |}
          | _ => s
          end
      end
  | Some (Appending username) =>
      {| generated_usernames := generated_usernames s ++ [username]; draws := draws s;
         threads := <[i := Returned username]> (threads s) |}
  | _ => s
  end.

(** The threads move in the order the schedule gives. *)
Definition run (schedule : list nat) (s : state) : state :=
  fold_left (fun s i => step i s) schedule s.

(** Two workers of [pool.map(self.__create_bot, range(self.bot_count))]
    entering the allocator of a fresh manager, the generator giving 7
    twice. *)
Definition two_workers : state :=
  {| generated_usernames := []; draws := [7; 7]; threads := [Testing; Testing] |}.

End allocator_threads.

(** ** chromedriver_manager.py *)

Module chromedriver_manager.

(** The host the provisioning code runs on. *)
Record host : Type := {
  os_name_nt : bool;                       (* os.name == "nt" *)
  platform : option string;                (* get_platform(), None: unsupported *)
  chrome : option string;                  (* version reported by the installed Chrome *)
  index_reachable : bool;                  (* the version index can be fetched *)
  builds : gmap string (list (string * string));
                                           (* build -> [(platform, url)] *)
  content_length : gmap string Z;          (* url -> Content-Length *)
  payload : gmap string Z;                 (* url -> size of the executable in the zip *)
  fs : gmap string Z                       (* path -> size of the file *)
}.

Definition with_fs (h : host) (fs' : gmap string Z) : host :=
  {| os_name_nt := os_name_nt h; platform := platform h; chrome := chrome h;
     index_reachable := index_reachable h; builds := builds h;
     content_length := content_length h; payload := payload h; fs := fs' |}.

Definition get_chrome_version (h : host) : outcome string :=
  match chrome h with
  | Some version => Ok version
  | None => Raise (Exception "Chrome is not installed.")
  end.

Definition get_platform (h : host) : outcome string :=
  match platform h with
  | Some p => Ok p
  | None => Raise (Exception "Unsupported platform.")
  end.

Fixpoint has_dot (s : string) : bool :=
  match s with
  | EmptyString => false
  | String c rest => if Ascii.eqb c "." then true else has_dot rest
  end.

(** [".".join(version.split(".")[:-1])]: what precedes the last dot. *)
Fixpoint version_without_patch (version : string) : string :=
  match version with
  | EmptyString => EmptyString
  | String c rest => if has_dot rest then String c (version_without_patch rest) else EmptyString
  end.

Fixpoint first_for_platform (h : host) (downloads : list (string * string)) : outcome string :=
  match downloads with
  | [] => Raise (Exception "Unable to get chromedriver link.")
  | (item_platform, url) :: rest =>
      p ← get_platform h;
      if String.eqb item_platform p then Ok url else first_for_platform h rest
  end.

Definition get_chromedriver_link (h : host) (version : string) : outcome string :=
  if index_reachable h then
    match builds h !! version_without_patch version with
    | Some downloads => first_for_platform h downloads
    | None => Raise (Exception "Unable to get chromedriver link.")
    end
  else Raise (Exception "Unable to get chromedriver link.").

Definition get_chromedriver_size (h : host) (version : string) : outcome Z :=
  chromedriver_link ← get_chromedriver_link h version;
  match content_length h !! chromedriver_link with
  | Some n => Ok n
  | None => Raise (KeyError "Content-Length")
  end.

Definition adapt_executable_name (h : host) (name : string) : string :=
  if os_name_nt h then name +:+ ".exe" else name.

Definition path_join (h : host) (directory name : string) : string :=
  directory +:+ (if os_name_nt h then "\" else "/") +:+ name.

Definition get_executable_path (h : host) (directory version : string) : string :=
  path_join h directory (adapt_executable_name h version).

(** [os.path.getsize]: raises on a path that does not exist. *)
Definition getsize (h : host) (path : string) : outcome Z :=
  match fs h !! path with
  | Some n => Ok n
  | None => Raise (FileNotFoundError path)
  end.

Definition should_download (h : host) (directory : string) (version : option string)
  : outcome bool :=
  version ← match version with
            | None => get_chrome_version h
            | Some v => Ok v
            end;
  remote ← get_chromedriver_size h version;
  local ← getsize h (get_executable_path h directory version);
  Ok (negb (remote =? local)).

(** [install]: the outcome, the events, and the host afterwards. Of the
    files only the executables are followed: the archive [<version>.zip]
    and the directory [chromedriver-<platform>] that a download writes
    and removes on its way are not part of [fs]. *)
Definition install (h : host) (directory : string) (re_download : bool)
  : outcome (string * string) * list event * host :=
  match get_chrome_version h with
  | Raise e => (Raise e, [], h) | Pending => (Pending, [], h)
  | Ok version =>
  match get_chromedriver_link h version with
  | Raise e => (Raise e, [], h) | Pending => (Pending, [], h)
  | Ok chromedriver_link =>
  let executable_path := path_join h directory (adapt_executable_name h version) in
  match should_download h directory (Some version) with
  | Raise e => (Raise e, [], h) | Pending => (Pending, [], h)
  | Ok needed =>
      if negb needed && negb re_download then (Ok (version, executable_path), [], h)
      else
        match payload h !! chromedriver_link with
        | None => (Raise (KeyError "chromedriver"), [Download chromedriver_link], h)
        | Some n =>
            (Ok (version, executable_path), [Download chromedriver_link],
             with_fs h (<[executable_path := n]> (fs h)))
        end
  end end end.

End chromedriver_manager.

(** ** bot.py *)

Module bot.

Inductive SendNameStatus : Type := success | already_exists | other_error.

(** The attributes of a [Bot] that the program reads or writes. The two
    callables ([vote_function], [request_new_name_function]) are passed to
    the methods that call them; [driver] names the browser session the
    bot owns. *)
Record Bot : Type := {
  index : nat;
  lobby_id : Z;
  username : string;
  driver : nat;
  preparing : bool;
  voting : bool
}.

Definition set_username (b : Bot) (name : string) : Bot :=
  {| index := index b; lobby_id := lobby_id b; username := name;
     driver := driver b; preparing := preparing b; voting := voting b |}.
Definition set_preparing (b : Bot) (flag : bool) : Bot :=
  {| index := index b; lobby_id := lobby_id b; username := username b;
     driver := driver b; preparing := flag; voting := voting b |}.
Definition set_voting (b : Bot) (flag : bool) : Bot :=
  {| index := index b; lobby_id := lobby_id b; username := username b;
     driver := driver b; preparing := preparing b; voting := flag |}.

(** [Bot.__init__] *)
Definition new_bot (index : nat) (lobby_id : Z) (username : string) (driver : nat) : Bot :=
  {| index := index; lobby_id := lobby_id; username := username;
     driver := driver; preparing := false; voting := false |}.

(** [Thread.name], set to [f"Bot-{index}"]. *)
Definition name (b : Bot) : string := "Bot-" +:+ str (Z.of_nat (index b)).

(** *** The join phase *)

(** What [find_element(...).click()] does. *)
Inductive click_result : Type := Clicked | Intercepted | Missing.

(** What the browser shows during one call of [send_name]. *)
Record name_attempt : Type := {
  nickname_found : bool;          (* the 3s wait for the nickname field *)
  join_button : click_result;     (* the click on the submit control *)
  instructions_reached : bool     (* the 2s wait for the post-join URL *)
}.

(** What the browser shows during one call of [prepare]. *)
Record join_script : Type := {
  landing_page_opens : bool;      (* driver.get returns *)
  game_input_found : bool;        (* the 5s wait for the lobby-code field *)
  join_pin_button : click_result;
  attempts : list name_attempt
}.

Definition click (c : click_result) : outcome unit :=
  match c with
  | Clicked => Ok tt
  | Intercepted => Raise ElementClickInterceptedException
  | Missing => Raise NoSuchElementException
  end.

Definition open_url (s : join_script) : outcome unit :=
  if landing_page_opens s then Ok tt else Raise WebDriverException.

Definition join_lobby (b : Bot) (s : join_script) : outcome unit * list event :=
  if game_input_found s
  then (click (join_pin_button s), [SendKeys (driver b) "game-input" (str (lobby_id b))])
  else (Raise TimeoutException, []).

Definition send_name (b : Bot) (a : name_attempt) : outcome SendNameStatus * list event :=
  if nickname_found a then
    (match join_button a with
     | Intercepted => Ok other_error          (* except ElementClickInterceptedException *)
     | Missing => Raise NoSuchElementException
     | Clicked =>
         if instructions_reached a then Ok success
         else Ok already_exists              (* except TimeoutException *)
     end,
     [SendKeys (driver b) "nickname" (username b)])
  else (Raise TimeoutException, []).

Section prepare.
(** [request_new_name_function], a callable acting on some state [St]. *)
Context {St : Type} (request_new_name_function : St -> outcome (string * St)).

(** The [while True] of [prepare]; one [name_attempt] per iteration. *)
Fixpoint name_loop (attempts : list name_attempt) (b : Bot) (st : St)
  : outcome bool * Bot * St * list event :=
  match attempts with
  | [] => (Pending, b, st, [])
  | a :: rest =>
      match send_name b a with
      | (Ok already_exists, ev) =>
          match request_new_name_function st with
          | Ok (new_name, st') =>
              let '(r, b', st'', ev') := name_loop rest (set_username b new_name) st' in
              (r, b', st'', ev ++ ev')
          | Raise e => (Raise e, b, st, ev)
          | Pending => (Pending, b, st, ev)
          end
      | (Ok other_error, ev) => (Ok false, set_preparing b false, st, ev)
      | (Ok success, ev) => (Ok true, set_preparing b false, st, ev)
      | (Raise e, ev) => (Raise e, b, st, ev)
      | (Pending, ev) => (Pending, b, st, ev)
      end
  end.

Definition prepare (b : Bot) (s : join_script) (st : St)
  : outcome bool * Bot * St * list event :=
  let b := set_preparing b true in
  match open_url s with
  | Raise e => (Raise e, b, st, [])
  | Pending => (Pending, b, st, [])
  | Ok _ =>
      match join_lobby b s with
      | (Raise e, ev) => (Raise e, b, st, ev)
      | (Pending, ev) => (Pending, b, st, ev)
      | (Ok _, ev) =>
          let '(r, b', st', ev') := name_loop (attempts s) b st in
          (r, b', st', ev ++ ev')
      end
  end.

(** [n] consecutive calls of the callable. *)
Fixpoint request_many (n : nat) (st : St) : outcome (list string * St) :=
  match n with
  | O => Ok ([], st)
  | S n' =>
      match request_new_name_function st with
      | Ok (new_name, st') =>
          match request_many n' st' with
          | Ok (names, st'') => Ok (new_name :: names, st'')
          | Raise e => Raise e
          | Pending => Pending
          end
      | Raise e => Raise e
      | Pending => Pending
      end
  end.
End prepare.

(** The names typed into the nickname field, in order. *)
Definition names_sent (ev : list event) : list string :=
  omap (fun e => match e with
                 | SendKeys _ "nickname" text => Some text
                 | _ => None
                 end) ev.

(** *** The voting phase *)

(** [needle in hay] on strings. *)
Definition contains (needle hay : string) : bool :=
  match String.index 0 needle hay with
  | Some _ => true
  | None => false
  end.

(** [check_game_over], on the URL the driver reports. *)
Definition check_game_over (current_url : string) : bool :=
  contains "gameover" current_url || contains "ranking" current_url.

(** What one bot observes during one polling interval: the URL of its
    session, what the 0.5s wait for the answer buttons finds ([None]: it
    times out; otherwise their [data-functional-selector] attributes), the
    raw draw its vote function would consume, and whether someone outside
    the thread clears [bot.voting] during the interval. *)
Record tick : Type := {
  current_url : string;
  answer_buttons : option (list string);
  draw : Z;
  stop_signal : bool
}.

(** Where the thread is: entering [vote_loop], at the condition of its
    [while], in the polling [while] of [vote], at the [if] after it, at
    the condition of the [while] of [wait_for_new_round], or gone. *)
Inductive pc : Type :=
  | Entry | LoopHead | VotePoll | VoteChoose | WaitRound
  | Finished | Crashed (e : exn).

Record thread : Type := {
  at_pc : pc;
  now : nat;                           (* polling intervals elapsed *)
  self : Bot;
  buttons : option (list string);      (* the local [answer_buttons] of [vote] *)
  clicks : list event
}.

Definition goto (t : thread) (p : pc) (b : Bot) (bs : option (list string))
    (ev : list event) : thread :=
  {| at_pc := p; now := S (now t); self := b; buttons := bs; clicks := clicks t ++ ev |}.

Section vote_loop.
Context (vote_function : Z -> Z -> outcome Z) (browser : nat -> tick).

(** The click of [vote]: the first button whose attribute is
    [f"answer-{vote_index}"], if any. *)
Definition click_answer (b : Bot) (bs : list string) (vote_index : Z) : list event :=
  match List.find (String.eqb ("answer-" +:+ str vote_index)) bs with
  | Some selector => [Click (driver b) selector]
  | None => []
  end.

(** One polling interval of the thread running [vote_loop]. *)
Definition step (t : thread) : thread :=
  let o := browser (now t) in
  let b := if stop_signal o then set_voting (self t) false else self t in
  let url := current_url o in
  match at_pc t with
  | Entry => goto t LoopHead (set_voting (self t) true) None []
  | LoopHead =>
      if negb (check_game_over url) && voting b
      then goto t VotePoll b None []
      else goto t Finished (set_voting b false) (buttons t) []
  | VotePoll =>
      if negb (check_game_over url) then
        match answer_buttons o with
        | Some bs => goto t VoteChoose b (Some bs) []
        | None => goto t VotePoll b (buttons t) []
        end
      else goto t VoteChoose b (buttons t) []
  | VoteChoose =>
      if check_game_over url then goto t WaitRound b (buttons t) []
      else
        match buttons t with
        | None => goto t (Crashed (UnboundLocalError "answer_buttons")) b None []
        | Some bs =>
            match vote_function (Z.of_nat (length bs)) (draw o) with
            | Ok vote_index => goto t WaitRound b (buttons t) (click_answer b bs vote_index)
            | Raise e => goto t (Crashed e) b (buttons t) []
            | Pending => t
            end
        end
  | WaitRound =>
      if negb (check_game_over url) && negb (contains "gameblock" url)
      then goto t WaitRound b (buttons t) []
      else goto t LoopHead b (buttons t) []
  | Finished | Crashed _ => t
  end.

Fixpoint steps (n : nat) (t : thread) : thread :=
  match n with
  | O => t
  | S n' => steps n' (step t)
  end.

(** [Bot.run]: the thread body is [vote_loop]. *)
Definition vote_loop (b : Bot) : thread :=
  {| at_pc := Entry; now := O; self := b; buttons := None; clicks := [] |}.
End vote_loop.

Definition running (p : pc) : bool :=
  match p with
  | Finished | Crashed _ => false
  | _ => true
  end.

End bot.

(** ** manager.py *)

Module manager.
Import chromedriver_manager.

(** A [BotManager] object. An attribute that [__init__] has not assigned
    is [None]; reading it raises [AttributeError]. *)
Record BotManager : Type := {
  bot_count : Z;
  lobby_id : Z;
  headless : bool;
  do_not_optimize : bool;
  chrome_version : option string;
  chromedriver_path : option string;
  generated_usernames : option (list string);
  bots : option (list bot.Bot)
}.

Definition set_generated_usernames (m : BotManager) (g : list string) : BotManager :=
  {| bot_count := bot_count m; lobby_id := lobby_id m; headless := headless m;
     do_not_optimize := do_not_optimize m; chrome_version := chrome_version m;
     chromedriver_path := chromedriver_path m;
     generated_usernames := Some g; bots := bots m |}.
Definition set_bots (m : BotManager) (bs : list bot.Bot) : BotManager :=
  {| bot_count := bot_count m; lobby_id := lobby_id m; headless := headless m;
     do_not_optimize := do_not_optimize m; chrome_version := chrome_version m;
     chromedriver_path := chromedriver_path m;
     generated_usernames := generated_usernames m; bots := Some bs |}.

(** [f"{error}"] *)
Definition exn_message (e : exn) : string :=
  match e with
  | TimeoutException => "Message: "
  | ElementClickInterceptedException => "Message: element click intercepted"
  | NoSuchElementException => "Message: no such element"
  | WebDriverException => "Message: "
  | AttributeError a => "'BotManager' object has no attribute '" +:+ a +:+ "'"
  | KeyError k => "'" +:+ k +:+ "'"
  | ValueError msg => msg
  | UnboundLocalError v => "cannot access local variable '" +:+ v +:+ "'"
  | FileNotFoundError path => "[Errno 2] No such file or directory: '" +:+ path +:+ "'"
  | Exception msg => msg
  | KeyboardInterrupt => EmptyString
  end.

(** [BotManager.__init__]. The object is returned even when provisioning
    failed: the [except] branch logs and returns from the constructor. *)
Definition init (h : host) (lobby_id bot_count : Z)
    (headless do_not_optimize re_download : bool)
  : outcome BotManager * list event * host :=
  let unprovisioned :=
    {| bot_count := bot_count; lobby_id := lobby_id; headless := headless;
       do_not_optimize := do_not_optimize; chrome_version := None;
       chromedriver_path := None; generated_usernames := None; bots := None |} in
  let failed (e : exn) (ev : list event) (h' : host) :=
    if is_Exception e
    then (Ok unprovisioned,
          ev ++ [Log CRITICAL ("Failed to download chromedriver: " +:+ exn_message e)], h')
    else (Raise e, ev, h') in
  match should_download h ".chromedriver" None with
  | Ok needed =>
      let ev := if needed || re_download
                then [Log INFO "Downloading chromedriver."] else [] in
      match install h ".chromedriver" re_download with
      | (Ok (version, path), ev', h') =>
          (Ok {| bot_count := bot_count; lobby_id := lobby_id; headless := headless;
                 do_not_optimize := do_not_optimize; chrome_version := Some version;
                 chromedriver_path := Some path; generated_usernames := Some [];
                 bots := Some [] |}, ev ++ ev', h')
      | (Raise e, ev', h') => failed e (ev ++ ev') h'
      | (Pending, ev', h') => (Pending, ev ++ ev', h')
      end
  | Raise e => failed e [] h
  | Pending => (Pending, [], h)
  end.

(** What [run] observes from outside, per bot index. *)
Inductive join_result : Type := ThreadEnded | Interrupt | NeverEnds.

Record world : Type := {
  driver_starts : nat -> bool;             (* Chrome(...) returns *)
  browser_join : nat -> bot.join_script;   (* the session during prepare() *)
  thread_join : nat -> join_result;        (* bot.join(): returns, is interrupted
                                              by the operator, or blocks for ever *)
  driver_quit : nat -> option exn          (* driver.quit() raises *)
}.

(** The mutable state shared by the workers: the random generator and the
    manager object. *)
Definition shared : Type := list Z * BotManager.

(** [self.__generate_unused_username], as the bound method the bots get. *)
Definition generate_unused_username (st : shared) : outcome (string * shared) :=
  let '(draws, m) := st in
  match generated_usernames m with
  | None => Raise (AttributeError "generated_usernames")
  | Some g =>
      '(username, g', draws') ← allocator.generate_unused_username draws g;
      Ok (username, (draws', set_generated_usernames m g'))
  end.

(** [__create_driver]: only what can fail is kept; the Chrome options do
    not bear on the result. *)
Definition create_driver (w : world) (m : BotManager) (i : nat) : outcome nat * list event :=
  (match chrome_version m with
   | None => Raise (AttributeError "chrome_version")
   | Some _ => if driver_starts w i then Ok i else Raise WebDriverException
   end, [Log DEBUG "Creating driver."]).

(** [__create_bot] *)
Definition create_bot (w : world) (i : nat) (st : shared)
  : outcome bot.Bot * list event * shared :=
  let ev := [Log DEBUG ("Creating bot " +:+ str (Z.of_nat i) +:+ ".")] in
  match generate_unused_username st with
  | Ok (username, st') =>
      match create_driver w (snd st') i with
      | (Ok d, ev') => (Ok (bot.new_bot i (lobby_id (snd st')) username d), ev ++ ev', st')
      | (Raise e, ev') => (Raise e, ev ++ ev', st')
      | (Pending, ev') => (Pending, ev ++ ev', st')
      end
  | Raise e => (Raise e, ev, st)
  | Pending => (Pending, ev, st)
  end.

(** [pool.map]: every task runs; the call returns the results in the
    order of the inputs once all tasks have ended, and re-raises when a
    task raised. The tasks are run here one after another in the order
    of the inputs, so a task is never interleaved with another
    ([allocator_threads] has the interleavings of the allocator), and of
    several exceptions the one of the earliest input is kept, where the
    pool keeps the one that arrives first. *)
Fixpoint gather {A} (rs : list (outcome A)) : outcome (list A) :=
  match rs with
  | [] => Ok []
  | Ok a :: rest => xs ← gather rest; Ok (a :: xs)
  | Raise e :: rest => match gather rest with Pending => Pending | _ => Raise e end
  | Pending :: _ => Pending
  end.

Fixpoint create_bots (w : world) (indices : list nat) (st : shared)
  : list (outcome bot.Bot) * list event * shared :=
  match indices with
  | [] => ([], [], st)
  | i :: rest =>
      let '(r, ev, st') := create_bot w i st in
      let '(rs, ev', st'') := create_bots w rest st' in
      (r :: rs, ev ++ ev', st'')
  end.

Fixpoint prepare_bots (w : world) (bs : list bot.Bot) (st : shared)
  : list (outcome bool) * list bot.Bot * list event * shared :=
  match bs with
  | [] => ([], [], [], st)
  | b :: rest =>
      let '(r, b', st', ev) :=
        bot.prepare generate_unused_username b (browser_join w (bot.index b)) st in
      let '(rs, bs', ev', st'') := prepare_bots w rest st' in
      (r :: rs, b' :: bs', ev ++ ev', st'')
  end.

(** [cleanup] *)
Fixpoint cleanup (w : world) (bs : list bot.Bot) : outcome unit * list event :=
  match bs with
  | [] => (Ok tt, [])
  | b :: rest =>
      let ev := [Log DEBUG ("Stopping " +:+ bot.name b +:+ " (" +:+ bot.username b +:+ ").");
                 DriverQuit (bot.driver b)] in
      match driver_quit w (bot.driver b) with
      | Some e => (Raise e, ev)
      | None => let '(r, ev') := cleanup w rest in (r, ev ++ ev')
      end
  end.

(** [for bot in self.bots: bot.start(); ...] *)
Definition start_bots (bs : list bot.Bot) : list event :=
  flat_map (fun b => [ThreadStart (bot.index b);
                      Log DEBUG ("Bot " +:+ bot.name b +:+ " (" +:+ bot.username b
                                 +:+ ") started voting.")]) bs.

(** [for bot in self.bots: bot.join(); ...] under its [try]. *)
Fixpoint join_bots (w : world) (bs : list bot.Bot) : join_result * list event :=
  match bs with
  | [] => (ThreadEnded, [])
  | b :: rest =>
      match thread_join w (bot.index b) with
      | ThreadEnded =>
          let '(r, ev) := join_bots w rest in
          (r, ThreadJoin (bot.index b)
              :: Log DEBUG ("Bot " +:+ bot.name b +:+ " (" +:+ bot.username b
                            +:+ ") finished voting.") :: ev)
      | Interrupt => (Interrupt, [])
      | NeverEnds => (NeverEnds, [])
      end
  end.

(** [run], from the test on [prepare_results] to the end. *)
Definition vote_and_cleanup (w : world) (bs : list bot.Bot) (prepare_results : list bool)
  : outcome unit * list event :=
  if negb (any prepare_results) then
    let '(r, ev) := cleanup w bs in
    (r, Log CRITICAL "All bots failed to join the lobby, exiting." :: ev)
  else
    let ev_partial :=
      if negb (all prepare_results)
      then [Log ERROR ("Not all bots were able to join the lobby, continuing with "
                       +:+ str (Z.of_nat (count_True prepare_results)) +:+ "/"
                       +:+ str (Z.of_nat (length prepare_results)) +:+ " bots.")]
      else [] in
    let ev_start := Log INFO "Now voting." :: start_bots bs in
    match join_bots w bs with
    | (NeverEnds, ev_join) => (Pending, ev_partial ++ ev_start ++ ev_join)
    | (ended, ev_join) =>
        let ev_stop :=
          match ended with
          | Interrupt => [Log INFO "Stopping bots."]
          | _ => [Log INFO "Game finished, stopping bots."]
          end in
        let '(r, ev) := cleanup w bs in
        (r, ev_partial ++ ev_start ++ ev_join ++ ev_stop ++ ev)
    end.

(** [run]. [pool.map] keeps the order of [range(bot_count)], so the sort by
    index that follows leaves the list as it is. *)
Definition run (w : world) (draws : list Z) (m : BotManager)
  : outcome unit * list event * BotManager :=
  let ev0 := [Log INFO ("Creating " +:+ str (bot_count m) +:+ " bots.")] in
  if bot_count m <? 1
  then (Raise (ValueError "Number of processes must be at least 1"), ev0, m)
  else
    let '(created, ev1, st1) :=
      create_bots w (seq 0 (Z.to_nat (bot_count m))) (draws, m) in
    match gather created with
    | Raise e => (Raise e, ev0 ++ ev1, snd st1)
    | Pending => (Pending, ev0 ++ ev1, snd st1)
    | Ok bs =>
        let ev2 := [Log INFO "Joining lobby with all bots."] in
        let '(prepared, bs', ev3, st2) := prepare_bots w bs (fst st1, set_bots (snd st1) bs) in
        let m' := set_bots (snd st2) bs' in
        match gather prepared with
        | Raise e => (Raise e, ev0 ++ ev1 ++ ev2 ++ ev3, m')
        | Pending => (Pending, ev0 ++ ev1 ++ ev2 ++ ev3, m')
        | Ok prepare_results =>
            let '(r, ev4) := vote_and_cleanup w bs' prepare_results in
            (r, ev0 ++ ev1 ++ ev2 ++ ev3 ++ ev4, m')
        end
    end.

End manager.

(** ** __main__.py *)

Module entry.
Import manager.

(** The parsed command line. *)
Record args : Type := {
  arg_lobby_id : Z;
  arg_bot_count : Z;
  arg_help : bool;
  arg_headless : bool;
  arg_verbose : bool;
  arg_no_optimize : bool
}.

(** The status the interpreter exits with: 0 when [main] returns, 1 when
    an exception escapes it (130 for [KeyboardInterrupt]); no status at
    all while it is still running. *)
Definition exit_status {A} (o : outcome A) : option Z :=
  match o with
  | Ok _ => Some 0
  | Raise KeyboardInterrupt => Some 130
  | Raise _ => Some 1
  | Pending => None
  end.

(** [main]: [BotManager] is built with the four positional arguments
    only, so [do_not_optimize] and [re_download] keep their defaults. *)
Definition main (h : chromedriver_manager.host) (w : world) (draws : list Z) (a : args)
  : outcome unit * list event :=
  if arg_help a then (Ok tt, [])
  else
    match init h (arg_lobby_id a) (arg_bot_count a) (arg_headless a) false false with
    | (Ok m, ev, _) => let '(r, ev', _) := run w draws m in (r, ev ++ ev')
    | (Raise e, ev, _) => (Raise e, ev)
    | (Pending, ev, _) => (Pending, ev)
    end.

End entry.

(** ** Vocabulary of the properties *)

Module observe.
Import chromedriver_manager.

(** The version [should_download] works with: the one it is given, or
    the one of the installed Chrome. *)
Definition resolves (h : host) (version : option string) (v : string) : Prop :=
  match version with
  | Some v' => v' = v
  | None => chrome h = Some v
  end.

(** The executable [should_download] measures is not in the cache
    directory (which may itself be absent). *)
Definition executable_missing (h : host) (directory : string) (version : option string) : Prop :=
  forall v, resolves h version v -> fs h !! get_executable_path h directory v = None.

(** The sessions [driver.quit()] was called on, in order. *)
Definition sessions_closed (ev : list event) : list nat :=
  omap (fun e => match e with DriverQuit s => Some s | _ => None end) ev.

(** The bots whose thread was started, in order. *)
Definition threads_started (ev : list event) : list nat :=
  omap (fun e => match e with ThreadStart i => Some i | _ => None end) ev.

(** The downloads attempted. *)
Definition downloads (ev : list event) : list string :=
  omap (fun e => match e with Download url => Some url | _ => None end) ev.

(** The quiz platform answers a name attempt with the given status. *)
Definition reports (a : bot.name_attempt) (status : bot.SendNameStatus) : Prop :=
  forall b, fst (bot.send_name b a) = Ok status.

(** The bot after it was given the names in turn. *)
Definition renamed (b : bot.Bot) (names : list string) : bot.Bot :=
  fold_left bot.set_username names b.

(** The names in use are pairwise distinct and all recorded in
    [generated_usernames]. *)
Definition claimed (m : manager.BotManager) (names : list string) : Prop :=
  exists g, manager.generated_usernames m = Some g
            /\ NoDup names /\ forall x, x ∈ names -> x ∈ g.

(** [__init__] took its [except] branch: the manager it returns has no
    [chrome_version]. *)
Definition provisioning_fails (h : host) (a : entry.args) : Prop :=
  exists m ev h',
    manager.init h (entry.arg_lobby_id a) (entry.arg_bot_count a) (entry.arg_headless a)
                 false false = (Ok m, ev, h')
    /\ manager.chrome_version m = None.

(** Both pools of [run] completed and every [prepare] returned [False]. *)
Definition nobody_joined (w : manager.world) (draws : list Z) (m : manager.BotManager) : Prop :=
  exists created ev1 st1 bs0 prepared bs ev3 st2 results,
    manager.create_bots w (seq 0 (Z.to_nat (manager.bot_count m))) (draws, m)
    = (created, ev1, st1)
    /\ manager.gather created = Ok bs0
    /\ manager.prepare_bots w bs0 (fst st1, manager.set_bots (snd st1) bs0)
       = (prepared, bs, ev3, st2)
    /\ manager.gather prepared = Ok results
    /\ any results = false.

End observe.

(** ** Concrete hosts, browsers and runs *)

Module scenario.
Import chromedriver_manager manager entry.

Definition zip_url : string := "https://storage.example/120.0.6099.109/chromedriver-linux64.zip".

(** A Linux host with Chrome 120 and the matching driver already cached. *)
Definition host_ready : host :=
  {| os_name_nt := false; platform := Some "linux64"; chrome := Some "120.0.6099.109";
     index_reachable := true;
     builds := {[ "120.0.6099" := [("win64", "https://storage.example/win64.zip");
                                   ("linux64", zip_url)] ]};
     content_length := {[ zip_url := 9000 ]};
     payload := {[ zip_url := 9000 ]};
     fs := {[ ".chromedriver/120.0.6099.109" := 9000 ]} |}.

(** The same host with an empty cache directory. *)
Definition host_fresh : host := with_fs host_ready ∅.

(** The three answers of the quiz platform to a submitted name. *)
Definition accepted : bot.name_attempt :=
  {| bot.nickname_found := true; bot.join_button := bot.Clicked;
     bot.instructions_reached := true |}.
Definition collision : bot.name_attempt :=
  {| bot.nickname_found := true; bot.join_button := bot.Clicked;
     bot.instructions_reached := false |}.
Definition overlay : bot.name_attempt :=
  {| bot.nickname_found := true; bot.join_button := bot.Intercepted;
     bot.instructions_reached := false |}.

Definition lobby_page (attempts : list bot.name_attempt) : bot.join_script :=
  {| bot.landing_page_opens := true; bot.game_input_found := true;
     bot.join_pin_button := bot.Clicked; bot.attempts := attempts |}.

(** A landing page on which the lobby-code field never shows up. *)
Definition no_game_input : bot.join_script :=
  {| bot.landing_page_opens := true; bot.game_input_found := false;
     bot.join_pin_button := bot.Clicked; bot.attempts := [accepted] |}.

Definition quiet_world (scripts : nat -> bot.join_script) : world :=
  {| driver_starts := fun _ => true; browser_join := scripts;
     thread_join := fun _ => ThreadEnded; driver_quit := fun _ => None |}.

(** Every name is accepted at once. *)
Definition all_join : world := quiet_world (fun _ => lobby_page [accepted]).

(** Bot 1 is stopped by an overlay; the others join. *)
Definition bot1_fails : world :=
  quiet_world (fun i => if Nat.eqb i 1 then lobby_page [overlay] else lobby_page [accepted]).

(** The platform rejects the first name of bot 1 once; the others join at
    once. *)
Definition bot1_collides : world :=
  quiet_world (fun i => if Nat.eqb i 1 then lobby_page [collision; accepted]
                        else lobby_page [accepted]).

(** Nobody joins. *)
Definition nobody_joins : world := quiet_world (fun _ => lobby_page [overlay]).

(** Everybody joins, and closing the first session raises. *)
Definition first_quit_raises : world :=
  {| driver_starts := fun _ => true; browser_join := fun _ => lobby_page [accepted];
     thread_join := fun _ => ThreadEnded;
     driver_quit := fun i => if Nat.eqb i 0 then Some WebDriverException else None |}.

(** A provisioned manager, as [__init__] leaves it on [host_ready]. *)
Definition provisioned (lobby_id bot_count : Z) : BotManager :=
  {| bot_count := bot_count; lobby_id := lobby_id; headless := false;
     do_not_optimize := false; chrome_version := Some "120.0.6099.109";
     chromedriver_path := Some ".chromedriver/120.0.6099.109";
     generated_usernames := Some []; bots := Some [] |}.

Definition command_line (bot_count : Z) : args :=
  {| arg_lobby_id := 123456789; arg_bot_count := bot_count; arg_help := false;
     arg_headless := false; arg_verbose := false; arg_no_optimize := false |}.

(** A bot that has joined and whose thread is inside [wait_for_new_round]
    after voting. *)
Definition waiting_thread : bot.thread :=
  {| bot.at_pc := bot.WaitRound; bot.now := 7%nat;
     bot.self := bot.set_voting (bot.new_bot 0 123456789 "user0001" 0) true;
     bot.buttons := Some ["answer-0"; "answer-1"]; bot.clicks := [] |}.

(** A browser that stays on the page shown after an answer was sent, while
    the stop signal is raised at every interval. *)
Definition answer_sent_for_ever (t : nat) : bot.tick :=
  {| bot.current_url := "https://kahoot.it/answer/sent"; bot.answer_buttons := None;
     bot.draw := 0; bot.stop_signal := true |}.

End scenario.

(** ** Further parts of the sources *)

(** *** chromedriver_manager.py: platform and portable directory *)

Module sysinfo.

(** A string is true in a condition unless it is empty. *)
Definition truthy (s : string) : bool :=
  match s with
  | EmptyString => false
  | _ => true
  end.

(** [get_platform], on what it reads from the interpreter:
    [sys.platform], [struct.calcsize("P")] and [platform.machine()]. *)
Definition get_platform (sys_platform : string) (pointer_size : Z) (machine : string)
  : outcome string :=
  let bits := pointer_size * 8 in
  let is_arm := machine in
  if String.eqb sys_platform "win32" then
    if bits =? 32 then Ok "win32" else Ok "win64"
  else if String.eqb sys_platform "darwin" then
    if truthy is_arm then Ok "mac-arm64" else Ok "mac-x64"
  else if String.eqb sys_platform "linux" then Ok "linux64"
  else Raise (Exception "Unsupported platform.").

(** The working directory as [create_portable_chrome_directory] sees it. *)
Record disk : Type := {
  cwd : string;
  files : gset string;       (* regular files, by relative name *)
  directories : gset string  (* directories, by relative name *)
}.

Inductive os_error : Type := FileExistsError (path : string).

Definition isdir (d : disk) (path : string) : bool := bool_decide (path ∈ directories d).

Definition abspath (d : disk) (path : string) : string := cwd d +:+ "/" +:+ path.

(** [os.mkdir]: refuses a name that is taken, by a file or a directory. *)
Definition mkdir (d : disk) (path : string) : os_error + disk :=
  if bool_decide (path ∈ directories d) || bool_decide (path ∈ files d)
  then inl (FileExistsError path)
  else inr {| cwd := cwd d; files := files d; directories := {[path]} ∪ directories d |}.

Definition create_portable_chrome_directory (d : disk) : (os_error + string * bool) * disk :=
  if isdir d ".portable_chrome" then (inr (abspath d ".portable_chrome", false), d)
  else
    match mkdir d ".portable_chrome" with
    | inl e => (inl e, d)
    | inr d' => (inr (abspath d' ".portable_chrome", true), d')
    end.

End sysinfo.

(** *** log_stuff.py *)

Module log_stuff.

(** [logging.DEBUG] ... [logging.CRITICAL]. *)
Definition levelno (l : log_level) : Z :=
  match l with
  | DEBUG => 10 | INFO => 20 | WARNING => 30 | ERROR => 40 | CRITICAL => 50
  end.

(** [logging.getLevelName] *)
Definition levelname (n : Z) : string :=
  if n =? 10 then "DEBUG" else if n =? 20 then "INFO" else if n =? 30 then "WARNING"
  else if n =? 40 then "ERROR" else if n =? 50 then "CRITICAL"
  else "Level " +:+ str n.

Definition ESC : string := String (Ascii.ascii_of_nat 27) EmptyString.

(** [ColoredStreamHandler.COLORS] and [RESET_COLOR]. *)
Definition COLORS : gmap Z string :=
  {[ 10 := ESC +:+ "[34;1m";
     20 := ESC +:+ "[32;1m";
     30 := ESC +:+ "[33;1m";
     40 := ESC +:+ "[31;1m";
     50 := ESC +:+ "[31;47;1m" ]}.

Definition RESET_COLOR : string := ESC +:+ "[0m".

(** A record as the formatter sees it. *)
Record LogRecord : Type := {
  record_levelno : Z;
  asctime : string;       (* the time, already rendered with "%H:%M:%S" *)
  message : string
}.

(** [logging.Formatter("[%(asctime)s] %(levelname)s %(message)s", ...)] *)
Definition format (r : LogRecord) : string :=
  "[" +:+ asctime r +:+ "] " +:+ levelname (record_levelno r) +:+ " " +:+ message r.

(** [format_message]: the default of [dict.get] is evaluated first. *)
Definition format_message (r : LogRecord) : outcome string :=
  match COLORS !! 20 with
  | None => Raise (KeyError "20")
  | Some fallback =>
      let color := default fallback (COLORS !! record_levelno r) in
      Ok (color +:+ format r +:+ RESET_COLOR)
  end.

(** The stream of the handler: what was written, or closed. *)
Record stream : Type := {
  closed : bool;
  written : list string
}.

(** [emit]: any exception of the body goes to [handleError], which does
    not raise. *)
Definition emit (r : LogRecord) (s : stream) : stream :=
  match format_message r with
  | Ok msg =>
      if closed s then s
      else {| closed := false; written := written s ++ [msg +:+ String "010" EmptyString] |}
  | _ => s
  end.

(** A logger of the [logging] module: its level and the number of
    [ColoredStreamHandler]s attached to it. Loggers are kept by name. *)
Record Logger : Type := {
  level : Z;
  handlers : nat
}.

Definition getLogger (loggers : gmap string Logger) (name : string) : Logger :=
  default {| level := 0; handlers := 0 |} (loggers !! name).

Definition create_colored_logger (name : string) (lvl : Z) (loggers : gmap string Logger)
  : gmap string Logger :=
  let manager_logger := getLogger loggers name in
  <[name := {| level := lvl; handlers := S (handlers manager_logger) |}]> loggers.

(** [Logger.getEffectiveLevel]: an unset level is the one of the root
    logger, [WARNING]. *)
Definition effective_level (l : Logger) : Z :=
  if level l =? 0 then 30 else level l.

Fixpoint emit_times (n : nat) (r : LogRecord) (s : stream) : stream :=
  match n with
  | O => s
  | S n' => emit_times n' r (emit r s)
  end.

(** [logging.lastResort]: the handler used when a record finds no handler
    at all; it takes records from [WARNING] on and writes the bare
    message to the same stream. *)
Definition last_resort (r : LogRecord) (s : stream) : stream :=
  if 30 <=? record_levelno r then
    if closed s then s
    else {| closed := false; written := written s ++ [message r +:+ String "010" EmptyString] |}
  else s.

(** [logger.log(level, msg)]: dropped when the level is disabled (the
    module disables the levels up to 0) or below the effective level of
    the logger, else handed to every handler of the logger, or to the
    handler of last resort when the logger has none. *)
Definition log (loggers : gmap string Logger) (name : string) (r : LogRecord) (s : stream)
  : stream :=
  let l := getLogger loggers name in
  if record_levelno r <=? 0 then s
  else if effective_level l <=? record_levelno r then
    match handlers l with
    | O => last_resort r s
    | S _ => emit_times (handlers l) r s
    end
  else s.

End log_stuff.

(** *** manager.py: the options of a driver *)

Module driver_options.

(** The arguments [__create_driver] adds first, in order. *)
Definition optimization_flags : list string :=
  [ "--disable-extensions"; "--disable-dev-shm-usage"; "--no-sandbox"; "--no-first-run";
    "--log-level=3"; "--silent"; "--disable-background-networking";
    "--disable-default-apps"; "--disable-sync"; "--disable-translate";
    "--disable-popup-blocking"; "--disable-features=BackgroundSync";
    "--dns-prefetch-disable"; "--disable-background-timer-throttling";
    "--disable-backgrounding-occluded-windows"; "--disable-infobars";
    "--disable-blink-features=AutomationControlled"; "--disable-notifications";
    "--disable-breakpad"; "--disable-client-side-phishing-detection";
    "--disable-default-apps";
    "--disable-features=Translate,BackForwardCache,InterestCohortAPI,BackgroundSync";
    "--disable-ipc-flooding-protection"; "--disable-renderer-backgrounding";
    "--enable-low-end-device-mode"; "--disk-cache-size=0"; "--media-cache-size=0";
    "--no-zygote"; "--blink-settings=imagesEnabled=false"; "--disable-web-resources" ].

Definition env_is (value : option string) (expected : string) : bool :=
  match value with
  | Some v => String.eqb v expected
  | None => false
  end.

(** The arguments of the [ChromeOptions] handed to [Chrome], given
    [sys.platform] and the environment variable [XDG_SESSION_TYPE]. *)
Definition chrome_options (sys_platform : string) (xdg_session_type : option string)
    (do_not_optimize headless : bool) : list string :=
  let options := optimization_flags in
  let options :=
    if String.eqb sys_platform "linux" then
      let options :=
        if env_is xdg_session_type "wayland"
        then options ++ ["--ozone-platform=wayland"] else options in
      if env_is xdg_session_type "x11"
      then options ++ ["--ozone-platform=x11"] else options
    else options in
  let options := if do_not_optimize then [] else options in
  if headless then options ++ ["--headless=new"] else options.

End driver_options.

(** *** More vocabulary *)

Module observe_more.

(** The bots whose thread was joined, in order. *)
Definition threads_joined (ev : list event) : list nat :=
  omap (fun e => match e with ThreadJoin i => Some i | _ => None end) ev.

(** The number a candidate name was built from. *)
Definition candidate_number (name : string) : option nat :=
  Nat.of_uint <$> NilEmpty.uint_of_string (String.substring 4 4 name).

(** The manager's list of names only grew since it held [g0], and by
    candidates only. *)
Definition grown_from (g0 : list string) (m : manager.BotManager) : Prop :=
  exists new, manager.generated_usernames m = Some (g0 ++ new)
              /\ forall x, x ∈ new -> x ∈ allocator.all_candidates.

End observe_more.

(** *** __main__.py: what reaches the console *)

Module console.

(** The logger [main] builds: [DEBUG] with [--verbose], else [INFO]. *)
Definition manager_logger (a : entry.args) : gmap string log_stuff.Logger :=
  log_stuff.create_colored_logger "bot_manager"
    (if entry.arg_verbose a then log_stuff.levelno DEBUG else log_stuff.levelno INFO) ∅.

(** The calls [self.logger.debug/info/error/critical(msg)] of a run, in
    order, on the stream of the handler; [clock k] is the time shown for
    the [k]-th call. *)
Fixpoint print (loggers : gmap string log_stuff.Logger) (clock : nat -> string)
    (k : nat) (ev : list event) (s : log_stuff.stream) : log_stuff.stream :=
  match ev with
  | [] => s
  | Log lvl msg :: rest =>
      print loggers clock (S k) rest
        (log_stuff.log loggers "bot_manager"
           {| log_stuff.record_levelno := log_stuff.levelno lvl;
              log_stuff.asctime := clock k; log_stuff.message := msg |} s)
  | _ :: rest => print loggers clock k rest s
  end.

(** The messages of a trace, at or above a level. *)
Definition messages_from (threshold : Z) (ev : list event) : list string :=
  omap (fun e => match e with
                 | Log lvl msg =>
                     if threshold <=? log_stuff.levelno lvl then Some msg else None
                 | _ => None
                 end) ev.

Definition with_no_optimize (a : entry.args) (flag : bool) : entry.args :=
  {| entry.arg_lobby_id := entry.arg_lobby_id a; entry.arg_bot_count := entry.arg_bot_count a;
     entry.arg_help := entry.arg_help a; entry.arg_headless := entry.arg_headless a;
     entry.arg_verbose := entry.arg_verbose a; entry.arg_no_optimize := flag |}.

End console.

(** * Properties *)

Import chromedriver_manager.

(** ** The embedding on small inputs *)

Example candidate_is_zero_padded :
  allocator.candidate 7 = Ok "user0007" /\ allocator.candidate 12345 = Ok "user2345".
Proof. split; reflexivity. Qed.

Example allocator_redraws_on_claimed_name :
  allocator.generate_unused_username [5; 10005; 7] ["user0005"]
  = Ok ("user0007", ["user0005"; "user0007"], []).
Proof. reflexivity. Qed.

Example vote_function_on_no_button :
  allocator.vote_function 0 3 = Raise (ValueError "empty range for randrange()").
Proof. reflexivity. Qed.

Example version_without_patch_drops_last_component :
  version_without_patch "120.0.6099.109" = "120.0.6099"
  /\ version_without_patch "120" = EmptyString.
Proof. split; reflexivity. Qed.

Example check_game_over_on_urls :
  bot.check_game_over "https://kahoot.it/ranking" = true
  /\ bot.check_game_over "https://kahoot.it/gameover" = true
  /\ bot.check_game_over "https://kahoot.it/gameblock" = false.
Proof. repeat split. Qed.

Example should_download_on_cached_driver :
  should_download scenario.host_ready ".chromedriver" None = Ok false.
Proof. reflexivity. Qed.

Example run_with_one_collision :
  let '(r, ev, _) := manager.run scenario.bot1_collides [1; 2; 3; 4]
                       (scenario.provisioned 123456789 3) in
  r = Ok tt
  /\ bot.names_sent ev = ["user0001"; "user0002"; "user0004"; "user0003"]
  /\ observe.threads_started ev = [0; 1; 2]%nat
  /\ observe.sessions_closed ev = [0; 1; 2]%nat.
Proof. vm_compute. repeat split. Qed.

(** ** The vote function *)

Lemma vote_function_value (n r : Z) :
  1 <= n -> allocator.vote_function n r = Ok (r mod n).
Proof.
  intros Hn. unfold allocator.vote_function, randint.
  replace (n - 1 - 0 + 1) with n by lia.
  destruct (Z.leb_spec n 0); [lia | reflexivity].
Qed.

(** C8. For an option count between 1 and 4 the vote function returns an
    index in [0, option_count); the index is the generator's uniform draw
    below [option_count] itself, so over one full block of draws every
    index is chosen exactly once. *)
Theorem vote_function_in_range_and_uniform (option_count : Z) :
  1 <= option_count <= 4 ->
  (forall r, exists i, allocator.vote_function option_count r = Ok i /\ 0 <= i < option_count)
  /\ (forall r i, allocator.vote_function option_count r = Ok i <-> r mod option_count = i)
  /\ (forall i, 0 <= i < option_count ->
        length (filter (fun r => allocator.vote_function option_count r = Ok i)
                       (map Z.of_nat (seq 0 (Z.to_nat option_count)))) = 1%nat).
Proof.
  intros Hn. split; [|split].
  - intros r. exists (r mod option_count). split.
    + apply vote_function_value. lia.
    + apply Z.mod_pos_bound. lia.
  - intros r i. rewrite vote_function_value by lia. split; congruence.
  - intros i Hi.
    assert (Hcases : option_count = 1 \/ option_count = 2 \/ option_count = 3 \/ option_count = 4) by lia.
    assert (Hi' : i = 0 \/ i = 1 \/ i = 2 \/ i = 3) by lia.
    destruct Hcases as [-> | [-> | [-> | ->]]];
      destruct Hi' as [-> | [-> | [-> | ->]]]; try lia; vm_compute; reflexivity.
Qed.

Lemma vote_function_in_range_and_uniform_witness :
  (exists i, allocator.vote_function 4 1234567 = Ok i /\ 0 <= i < 4)
  /\ length (filter (fun r => allocator.vote_function 4 r = Ok 2)
                    (map Z.of_nat (seq 0 (Z.to_nat 4)))) = 1%nat.
Proof.
  destruct (vote_function_in_range_and_uniform 4 ltac:(lia)) as (Hrange & _ & Hcount).
  split; [apply Hrange | apply Hcount; lia].
Defined.

(** ** Provisioning on a cache without the executable *)

Import observe.

Lemma first_for_platform_outcome h downloads :
  match first_for_platform h downloads with
  | Ok _ => True
  | Raise e => is_Exception e = true
  | Pending => False
  end.
Proof.
  induction downloads as [| [p url] rest IH]; simpl; [reflexivity |].
  unfold get_platform. destruct (platform h); simpl; [| reflexivity].
  destruct (String.eqb p s); [exact I | exact IH].
Qed.

Lemma get_chromedriver_size_outcome h v :
  match get_chromedriver_size h v with
  | Ok _ => True
  | Raise e => is_Exception e = true
  | Pending => False
  end.
Proof.
  unfold get_chromedriver_size, get_chromedriver_link.
  destruct (index_reachable h); simpl; [| reflexivity].
  destruct (builds h !! version_without_patch v) as [ds |]; simpl; [| reflexivity].
  pose proof (first_for_platform_outcome h ds) as Hf.
  destruct (first_for_platform h ds) as [link | e |]; simpl; [| exact Hf | exact Hf].
  destruct (content_length h !! link); reflexivity.
Qed.

Lemma should_download_missing h directory version :
  executable_missing h directory version ->
  exists e, should_download h directory version = Raise e /\ is_Exception e = true.
Proof.
  intros Hmiss. unfold should_download.
  assert (Hv : (exists v, resolves h version v /\
                  match version with None => get_chrome_version h | Some v' => Ok v' end = Ok v)
               \/ (version = None /\ chrome h = None)).
  { destruct version as [v |]; [left; exists v; split; reflexivity |].
    unfold get_chrome_version, resolves. destruct (chrome h) as [v |]; [| right; auto].
    left. exists v. split; reflexivity. }
  destruct Hv as [(v & Hres & ->) | (-> & Hnone)]; simpl.
  - pose proof (get_chromedriver_size_outcome h v) as Hs.
    destruct (get_chromedriver_size h v) as [n | e |]; simpl.
    + unfold getsize. rewrite (Hmiss v Hres). simpl. eauto.
    + eauto.
    + contradiction.
  - unfold get_chrome_version. rewrite Hnone. simpl. eauto.
Qed.

(** C10. When the executable for the Chrome version is not in the cache
    directory, [should_download] raises instead of returning a boolean
    (the [FileNotFoundError] of [os.path.getsize] once the remote size is
    known), and [BotManager.__init__] on such a cache logs the
    provisioning failure and returns without any download, leaving the
    attributes that follow the [try] unset. *)
Theorem should_download_raises_without_executable (h : host) :
  (forall directory version,
      executable_missing h directory version ->
      (exists e, should_download h directory version = Raise e /\ is_Exception e = true)
      /\ (forall v n, resolves h version v -> get_chromedriver_size h v = Ok n ->
            should_download h directory version
            = Raise (FileNotFoundError (get_executable_path h directory v))))
  /\ (executable_missing h ".chromedriver" None ->
      forall lobby_id bot_count headless do_not_optimize re_download,
      exists msg,
        manager.init h lobby_id bot_count headless do_not_optimize re_download
        = (Ok {| manager.bot_count := bot_count; manager.lobby_id := lobby_id;
                 manager.headless := headless;
                 manager.do_not_optimize := do_not_optimize;
                 manager.chrome_version := None; manager.chromedriver_path := None;
                 manager.generated_usernames := None; manager.bots := None |},
           [Log CRITICAL msg], h)
        /\ downloads [Log CRITICAL msg] = []).
Proof.
  split.
  - intros directory version Hmiss. split; [exact (should_download_missing _ _ _ Hmiss) |].
    intros v n Hres Hsize. unfold should_download.
    assert (match version with None => get_chrome_version h | Some v' => Ok v' end = Ok v) as ->.
    { destruct version; simpl in Hres; [congruence |].
      unfold get_chrome_version. rewrite Hres. reflexivity. }
    simpl. rewrite Hsize. simpl. unfold getsize. rewrite (Hmiss v Hres). reflexivity.
  - intros Hmiss lobby_id bot_count headless dno re.
    destruct (should_download_missing _ _ _ Hmiss) as (e & He & Hexc).
    exists ("Failed to download chromedriver: " +:+ manager.exn_message e).
    unfold manager.init. rewrite He, Hexc. split; reflexivity.
Qed.

Lemma should_download_raises_without_executable_witness :
  should_download scenario.host_fresh ".chromedriver" None
  = Raise (FileNotFoundError ".chromedriver/120.0.6099.109")
  /\ exists msg,
      fst (manager.init scenario.host_fresh 123456789 3 false false false)
      = (Ok {| manager.bot_count := 3; manager.lobby_id := 123456789;
               manager.headless := false; manager.do_not_optimize := false;
               manager.chrome_version := None; manager.chromedriver_path := None;
               manager.generated_usernames := None; manager.bots := None |},
         [Log CRITICAL msg]).
Proof.
  assert (Hmiss : forall directory,
             executable_missing scenario.host_fresh directory None).
  { intros directory v Hv. simpl in Hv. inversion Hv; subst. reflexivity. }
  destruct (should_download_raises_without_executable scenario.host_fresh) as [Hsd Hinit].
  split.
  - destruct (Hsd ".chromedriver" None (Hmiss _)) as [_ Hfile].
    apply (Hfile "120.0.6099.109" 9000); reflexivity.
  - destruct (Hinit (Hmiss _) 123456789 3 false false false) as (msg & Heq & _).
    exists msg. rewrite Heq. reflexivity.
Defined.

(** ** The username allocator *)

Lemma candidate_value (r : Z) :
  allocator.candidate r = Ok ("user" +:+ rjust 4 "0" (str (r mod 10000))).
Proof. reflexivity. Qed.

Lemma generate_unused_username_cons (r : Z) (draws : list Z) (g : list string) :
  allocator.generate_unused_username (r :: draws) g
  = match allocator.candidate r with
    | Ok username =>
        if bool_decide (username ∈ g)
        then allocator.generate_unused_username draws g
        else Ok (username, g ++ [username], draws)
    | Raise e => Raise e
    | Pending => Pending
    end.
Proof. reflexivity. Qed.

Lemma candidate_in_all_candidates (r : Z) :
  ("user" +:+ rjust 4 "0" (str (r mod 10000))) ∈ allocator.all_candidates.
Proof.
  apply list_elem_of_In. unfold allocator.all_candidates. apply in_map_iff.
  assert (0 <= r mod 10000 < 10000) by (apply Z.mod_pos_bound; lia).
  exists (Z.to_nat (r mod 10000)). split.
  - rewrite Z2Nat.id by lia. reflexivity.
  - apply in_seq. lia.
Qed.

(** The allocator either returns or is still drawing: it never raises. *)
Lemma generate_unused_username_no_raise (draws : list Z) (g : list string) (e : exn) :
  allocator.generate_unused_username draws g <> Raise e.
Proof.
  induction draws as [| r draws IH]; [discriminate |].
  rewrite generate_unused_username_cons, candidate_value.
  destruct (bool_decide _); [exact IH | discriminate].
Qed.

Lemma generate_unused_username_exhausted (used : list string) (draws : list Z) :
  (forall n, 0 <= n <= 9999 -> ("user" +:+ rjust 4 "0" (str n)) ∈ used) ->
  allocator.generate_unused_username draws used = Pending.
Proof.
  intros Hfull. induction draws as [| r draws IH]; [reflexivity |].
  rewrite generate_unused_username_cons, candidate_value.
  rewrite bool_decide_eq_true_2; [exact IH |].
  apply Hfull. pose proof (Z.mod_pos_bound r 10000). lia.
Qed.

(** What a returning call did. *)
Lemma generate_unused_username_returns (draws : list Z) (g : list string)
    (username : string) (g' : list string) (draws' : list Z) :
  allocator.generate_unused_username draws g = Ok (username, g', draws') ->
  (username ∉ g) /\ g' = g ++ [username].
Proof.
  induction draws as [| r draws IH]; [discriminate |].
  rewrite generate_unused_username_cons, candidate_value.
  destruct (bool_decide _) eqn:Hin; [exact IH |].
  intros [= <- <- <-]. split; [| reflexivity].
  apply bool_decide_eq_false in Hin. exact Hin.
Qed.

Lemma all_candidates_full (n : Z) :
  0 <= n <= 9999 -> ("user" +:+ rjust 4 "0" (str n)) ∈ allocator.all_candidates.
Proof.
  intros Hn. replace n with (n mod 10000) by (apply Z.mod_small; lia).
  apply candidate_in_all_candidates.
Qed.

(** Counterexample to C7: once the 10000 names are claimed, no sequence of
    draws makes the call end, with a name or with an error. *)
Lemma allocator_spins_when_exhausted :
  ~ exists draws,
      allocator.generate_unused_username draws allocator.all_candidates <> Pending.
Proof.
  intros [draws Hends]. apply Hends.
  apply generate_unused_username_exhausted, all_candidates_full.
Qed.

(** C7, amended. The allocator has no retry bound and raises nothing: it
    returns the first drawn candidate that is not claimed, and when all of
    [user0000] ... [user9999] are claimed it keeps drawing for ever. *)
Theorem allocator_returns_first_unclaimed_or_spins (used : list string) (draws : list Z) :
  (forall e, allocator.generate_unused_username draws used <> Raise e)
  /\ ((forall n, 0 <= n <= 9999 -> ("user" +:+ rjust 4 "0" (str n)) ∈ used) ->
      allocator.generate_unused_username draws used = Pending)
  /\ ((exists r, r ∈ draws /\ ("user" +:+ rjust 4 "0" (str (r mod 10000))) ∉ used) ->
      exists username rest,
        allocator.generate_unused_username draws used = Ok (username, used ++ [username], rest)
        /\ username ∉ used).
Proof.
  split; [| split].
  - intros e. apply generate_unused_username_no_raise.
  - apply generate_unused_username_exhausted.
  - intros (r & Hr & Hfresh). induction draws as [| r0 draws IH].
    + inversion Hr.
    + rewrite generate_unused_username_cons, candidate_value.
      destruct (bool_decide _) eqn:Hin.
      * apply bool_decide_eq_true in Hin. apply IH.
        apply elem_of_cons in Hr as [-> | Hr]; [contradiction | exact Hr].
      * apply bool_decide_eq_false in Hin. eauto.
Qed.

Lemma allocator_returns_first_unclaimed_or_spins_witness :
  allocator.generate_unused_username [5; 10005; 7] allocator.all_candidates = Pending
  /\ exists username rest,
      allocator.generate_unused_username [5; 10005; 7] ["user0005"]
      = Ok (username, ["user0005"] ++ [username], rest)
      /\ username ∉ ["user0005"].
Proof.
  split.
  - apply (allocator_returns_first_unclaimed_or_spins allocator.all_candidates [5; 10005; 7]).
    exact all_candidates_full.
  - apply (allocator_returns_first_unclaimed_or_spins ["user0005"] [5; 10005; 7]).
    exists 7. split; [set_solver |].
    intros Hin. apply list_elem_of_singleton in Hin. vm_compute in Hin. discriminate.
Defined.

(** *** Uniqueness across a run *)

Lemma method_returns (st st' : manager.shared) (username : string) :
  manager.generate_unused_username st = Ok (username, st') ->
  exists g, manager.generated_usernames (snd st) = Some g
            /\ (username ∉ g)
            /\ manager.generated_usernames (snd st') = Some (g ++ [username]).
Proof.
  destruct st as [draws m]. unfold manager.generate_unused_username. simpl.
  destruct (manager.generated_usernames m) as [g |]; [| discriminate].
  destruct (allocator.generate_unused_username draws g) as [[[u g'] d'] | e |] eqn:E;
    simpl; try discriminate.
  intros [= <- <-]. apply generate_unused_username_returns in E as [Hfresh ->].
  exists g. auto.
Qed.

Lemma claimed_tail (m : manager.BotManager) (x : string) (names : list string) :
  claimed m (x :: names) -> claimed m names.
Proof.
  intros (g & Hg & Hnd & Hsub). exists g. split; [exact Hg |]. split.
  - apply NoDup_cons in Hnd. tauto.
  - intros y Hy. apply Hsub. set_solver.
Qed.

Lemma claimed_fresh (st st' : manager.shared) (username : string) (names : list string) :
  manager.generate_unused_username st = Ok (username, st') ->
  claimed (snd st) names -> claimed (snd st') (username :: names).
Proof.
  intros Hcall (g & Hg & Hnd & Hsub).
  apply method_returns in Hcall as (g0 & Hg0 & Hfresh & Hg').
  rewrite Hg in Hg0. injection Hg0 as <-.
  exists (g ++ [username]). split; [exact Hg' |]. split.
  - apply NoDup_cons. split; [| exact Hnd]. intros Hin. apply Hfresh, Hsub, Hin.
  - intros y Hy. apply elem_of_cons in Hy as [-> | Hy]; [set_solver |].
    apply elem_of_app. left. apply Hsub, Hy.
Qed.

Lemma claimed_perm (m : manager.BotManager) (names names' : list string) :
  names ≡ₚ names' -> claimed m names -> claimed m names'.
Proof.
  intros Hp (g & Hg & Hnd & Hsub). exists g. split; [exact Hg |]. split.
  - rewrite <- Hp. exact Hnd.
  - intros y Hy. apply Hsub. rewrite Hp. exact Hy.
Qed.

Lemma name_loop_claimed (attempts : list bot.name_attempt) :
  forall b st r b' st' ev others,
    bot.name_loop manager.generate_unused_username attempts b st = (r, b', st', ev) ->
    claimed (snd st) (bot.username b :: others) ->
    claimed (snd st') (bot.username b' :: others).
Proof.
  induction attempts as [| a rest IH]; intros b st r b' st' ev others; simpl.
  - intros [= <- <- <- <-]. auto.
  - unfold bot.send_name.
    destruct (bot.nickname_found a); [| intros [= <- <- <- <-]; auto].
    destruct (bot.join_button a); try (intros [= <- <- <- <-]; auto; fail).
    destruct (bot.instructions_reached a); [intros [= <- <- <- <-]; auto |].
    destruct (manager.generate_unused_username st) as [[new_name st1] | e |] eqn:Hcall;
      try (intros [= <- <- <- <-]; auto; fail).
    destruct (bot.name_loop _ rest _ st1) as [[[r1 b1] st2] ev1] eqn:Hloop.
    intros [= <- <- <- <-] Hcl.
    apply (IH _ _ _ _ _ _ others Hloop). simpl.
    apply (claimed_fresh _ _ _ _ Hcall). apply claimed_tail in Hcl. exact Hcl.
Qed.

Lemma prepare_claimed (b : bot.Bot) (s : bot.join_script) (st : manager.shared) :
  forall r b' st' ev others,
    bot.prepare manager.generate_unused_username b s st = (r, b', st', ev) ->
    claimed (snd st) (bot.username b :: others) ->
    claimed (snd st') (bot.username b' :: others).
Proof.
  intros r b' st' ev others. unfold bot.prepare.
  destruct (bot.open_url s); try (intros [= <- <- <- <-]; auto; fail).
  destruct (bot.join_lobby _ s) as [[u | e |] ev0];
    try (intros [= <- <- <- <-]; auto; fail).
  destruct (bot.name_loop _ _ _ st) as [[[r1 b1] st1] ev1] eqn:Hloop.
  intros [= <- <- <- <-]. apply (name_loop_claimed _ _ _ _ _ _ _ others Hloop).
Qed.

Lemma prepare_bots_claimed (w : manager.world) (bs : list bot.Bot) :
  forall st rs bs' ev st' done,
    manager.prepare_bots w bs st = (rs, bs', ev, st') ->
    claimed (snd st) (done ++ map bot.username bs) ->
    claimed (snd st') (done ++ map bot.username bs').
Proof.
  induction bs as [| b rest IH]; intros st rs bs' ev st' done; simpl.
  - intros [= <- <- <- <-]. auto.
  - destruct (bot.prepare _ b _ st) as [[[r1 b1] st1] ev1] eqn:Hprep.
    destruct (manager.prepare_bots w rest st1) as [[[rs2 bs2] ev2] st2] eqn:Hrest.
    intros [= <- <- <- <-] Hcl. simpl.
    replace (done ++ bot.username b1 :: map bot.username bs2)
      with ((done ++ [bot.username b1]) ++ map bot.username bs2)
      by (rewrite <- app_assoc; reflexivity).
    apply (IH _ _ _ _ _ _ Hrest).
    apply (claimed_perm _ (bot.username b1 :: done ++ map bot.username rest)).
    { rewrite <- app_assoc. simpl. apply Permutation_middle. }
    apply (prepare_claimed _ _ _ _ _ _ _ _ Hprep).
    apply (claimed_perm _ (done ++ bot.username b :: map bot.username rest)); [| exact Hcl].
    symmetry. apply Permutation_middle.
Qed.

Lemma gather_raise_not_ok {A} (e : exn) (rs : list (outcome A)) (xs : list A) :
  manager.gather (Raise e :: rs) <> Ok xs.
Proof. simpl. destruct (manager.gather rs); discriminate. Qed.

Lemma gather_ok_cons {A} (a : A) (rs : list (outcome A)) (xs : list A) :
  manager.gather (Ok a :: rs) = Ok xs ->
  exists xs', manager.gather rs = Ok xs' /\ xs = a :: xs'.
Proof.
  simpl. destruct (manager.gather rs) as [xs' | e |]; simpl; try discriminate.
  intros [= <-]. eauto.
Qed.

Lemma method_keeps_bots (st st' : manager.shared) (username : string) :
  manager.generate_unused_username st = Ok (username, st') ->
  manager.bots (snd st') = manager.bots (snd st)
  /\ manager.lobby_id (snd st') = manager.lobby_id (snd st)
  /\ manager.chrome_version (snd st') = manager.chrome_version (snd st).
Proof.
  destruct st as [draws m]. unfold manager.generate_unused_username. simpl.
  destruct (manager.generated_usernames m) as [g |]; [| discriminate].
  destruct (allocator.generate_unused_username draws g) as [[[u g'] d'] | e |];
    simpl; try discriminate.
  intros [= <- <-]. auto.
Qed.

(** What [__create_bot] leaves behind, whatever its outcome. *)
Lemma create_bot_cases (w : manager.world) (i : nat) (st : manager.shared) :
  forall r ev st',
    manager.create_bot w i st = (r, ev, st') ->
    manager.bots (snd st') = manager.bots (snd st)
    /\ sessions_closed ev = [] /\ threads_started ev = []
    /\ match r with
       | Ok b => exists username,
           manager.generate_unused_username st = Ok (username, st')
           /\ b = bot.new_bot i (manager.lobby_id (snd st')) username i
       | _ => True
       end.
Proof.
  intros r ev st'. unfold manager.create_bot, manager.create_driver.
  destruct (manager.generate_unused_username st) as [[u st1] | e |] eqn:Hcall.
  - apply method_keeps_bots in Hcall as Hkeep. destruct Hkeep as (Hb & _ & _).
    destruct (manager.chrome_version (snd st1)); [destruct (manager.driver_starts w i) |];
      intros [= <- <- <-]; repeat split; eauto.
  - intros [= <- <- <-]. auto.
  - intros [= <- <- <-]. auto.
Qed.

Lemma create_bots_claimed (w : manager.world) (indices : list nat) :
  forall st rs ev st' names bs,
    manager.create_bots w indices st = (rs, ev, st') ->
    claimed (snd st) names ->
    manager.gather rs = Ok bs ->
    claimed (snd st') (names ++ map bot.username bs)
    /\ map bot.index bs = indices /\ map bot.driver bs = indices.
Proof.
  induction indices as [| i rest IH]; intros st rs ev st' names bs; simpl.
  - intros [= <- <- <-] Hcl [= <-]. simpl. rewrite app_nil_r. auto.
  - destruct (manager.create_bot w i st) as [[r1 ev1] st1] eqn:Hone.
    destruct (manager.create_bots w rest st1) as [[rs2 ev2] st2] eqn:Hrest.
    intros [= <- <- <-] Hcl Hg.
    apply create_bot_cases in Hone as (_ & _ & _ & Hr).
    destruct r1 as [b | e |]; [| exfalso; exact (gather_raise_not_ok _ _ _ Hg) | discriminate].
    destruct Hr as (u & Hcall & ->).
    apply gather_ok_cons in Hg as (xs & Hg & ->).
    destruct (IH _ _ _ _ (names ++ [u]) xs Hrest) as (Hcl' & Hidx & Hdrv); [| exact Hg |].
    + apply (claimed_perm _ (u :: names)); [| exact (claimed_fresh _ _ _ _ Hcall Hcl)].
      apply Permutation_cons_append.
    + simpl. rewrite <- app_assoc in Hcl'. simpl in Hcl'. rewrite Hidx, Hdrv. auto.
Qed.

Lemma create_bots_keeps_bots (w : manager.world) (indices : list nat) :
  forall st rs ev st',
    manager.create_bots w indices st = (rs, ev, st') ->
    manager.bots (snd st') = manager.bots (snd st).
Proof.
  induction indices as [| i rest IH]; intros st rs ev st'; simpl.
  - intros [= <- <- <-]. reflexivity.
  - destruct (manager.create_bot w i st) as [[r1 ev1] st1] eqn:Hone.
    destruct (manager.create_bots w rest st1) as [[rs2 ev2] st2] eqn:Hrest.
    intros [= <- <- <-]. rewrite (IH _ _ _ _ Hrest).
    apply create_bot_cases in Hone. tauto.
Qed.

Lemma gather_length {A} (rs : list (outcome A)) :
  forall xs, manager.gather rs = Ok xs -> length xs = length rs.
Proof.
  induction rs as [| [a | e |] rs IH]; intros xs Hg.
  - injection Hg as <-. reflexivity.
  - apply gather_ok_cons in Hg as (xs' & Hg & ->). simpl. f_equal. auto.
  - exfalso. exact (gather_raise_not_ok _ _ _ Hg).
  - discriminate.
Qed.

Lemma prepare_bots_length (w : manager.world) (bs : list bot.Bot) :
  forall st rs bs' ev st',
    manager.prepare_bots w bs st = (rs, bs', ev, st') ->
    length bs' = length bs /\ length rs = length bs.
Proof.
  induction bs as [| b rest IH]; intros st rs bs' ev st'; simpl.
  - intros [= <- <- <- <-]. auto.
  - destruct (bot.prepare _ b _ st) as [[[r1 b1] st1] ev1].
    destruct (manager.prepare_bots w rest st1) as [[[rs2 bs2] ev2] st2] eqn:Hrest.
    intros [= <- <- <- <-]. simpl. destruct (IH _ _ _ _ _ Hrest). auto.
Qed.

Lemma request_many_records (n : nat) :
  forall st names st' g,
    bot.request_many manager.generate_unused_username n st = Ok (names, st') ->
    manager.generated_usernames (snd st) = Some g ->
    NoDup g ->
    manager.generated_usernames (snd st') = Some (g ++ names) /\ NoDup (g ++ names).
Proof.
  induction n as [| n IH]; intros st names st' g; simpl.
  - intros [= <- <-] Hg Hnd. rewrite app_nil_r. auto.
  - destruct (manager.generate_unused_username st) as [[u st1] | e |] eqn:Hcall;
      try discriminate.
    destruct (bot.request_many _ n st1) as [[names1 st2] | e |] eqn:Hmany;
      try discriminate.
    intros [= <- <-] Hg Hnd.
    apply method_returns in Hcall as (g0 & Hg0 & Hfresh & Hg1).
    rewrite Hg in Hg0. injection Hg0 as <-.
    destruct (IH _ _ _ _ Hmany Hg1) as [Hrec Hnd'].
    + apply NoDup_app. repeat split; [exact Hnd | | apply NoDup_singleton].
      intros x Hx Hx'. apply list_elem_of_singleton in Hx'. subst. contradiction.
    + rewrite <- app_assoc in Hrec, Hnd'. auto.
Qed.

(** When no two calls of the allocator overlap: a returning call gives a
    name that is not in the claimed list and appends it before returning,
    the names of successive calls are pairwise distinct and all
    recorded, and a [run] whose pool tasks follow one another ends with
    pairwise distinct names on its bots. *)
Lemma usernames_distinct_without_overlap :
  (forall draws g username g' draws',
      allocator.generate_unused_username draws g = Ok (username, g', draws') ->
      (username ∉ g) /\ g' = g ++ [username])
  /\ (forall n st names st' g,
        bot.request_many manager.generate_unused_username n st = Ok (names, st') ->
        manager.generated_usernames (snd st) = Some g ->
        NoDup g ->
        manager.generated_usernames (snd st') = Some (g ++ names) /\ NoDup (g ++ names))
  /\ (forall w draws m r ev m' bs,
        manager.generated_usernames m = Some [] ->
        manager.bots m = Some [] ->
        manager.run w draws m = (r, ev, m') ->
        manager.bots m' = Some bs ->
        NoDup (map bot.username bs)
        /\ (r = Ok tt -> length bs = Z.to_nat (manager.bot_count m))).
Proof.
  split; [exact generate_unused_username_returns |].
  split; [exact request_many_records |].
  intros w draws m r ev m' bs Hgen Hbots. unfold manager.run.
  destruct (manager.bot_count m <? 1).
  { intros [= <- <- <-] Hbs. rewrite Hbots in Hbs. injection Hbs as <-.
    split; [constructor | discriminate]. }
  destruct (manager.create_bots _ _ _) as [[created ev1] st1] eqn:Hcreate.
  pose proof (create_bots_keeps_bots _ _ _ _ _ _ Hcreate) as Hkeep. simpl in Hkeep.
  destruct (manager.gather created) as [bs0 | e |] eqn:Hgather.
  2,3: intros [= <- <- <-] Hbs; rewrite Hkeep, Hbots in Hbs; injection Hbs as <-;
       split; [constructor | discriminate].
  assert (Hinit : claimed (snd (draws, m)) []).
  { exists []. simpl. split; [exact Hgen |]. split; [constructor | auto]. }
  destruct (create_bots_claimed _ _ _ _ _ _ [] bs0 Hcreate Hinit Hgather)
    as ((g & Hg & Hnd & Hsub) & Hidx & _).
  destruct (manager.prepare_bots _ _ _) as [[[prepared bs'] ev3] st2] eqn:Hprep.
  assert (Hfinal : NoDup (map bot.username bs')).
  { destruct (prepare_bots_claimed _ _ _ _ _ _ _ [] Hprep) as (g' & _ & Hnd' & _).
    - exists g. simpl. auto.
    - exact Hnd'. }
  assert (Hlen : length bs' = Z.to_nat (manager.bot_count m)).
  { apply prepare_bots_length in Hprep as [-> _].
    rewrite <- (length_map bot.index), Hidx. apply length_seq. }
  destruct (manager.gather prepared) as [results | e |].
  2,3: intros [= <- <- <-] [= <-]; split; [exact Hfinal | discriminate].
  destruct (manager.vote_and_cleanup _ _ _) as [r4 ev4].
  intros [= <- <- <-] [= <-]. auto.
Qed.

(** A thread that is left alone from the loop test to its return does
    what [allocator.generate_unused_username] says. *)
Lemma thread_alone_agrees (i : nat) (ts : list allocator_threads.pc) :
  ts !! i = Some allocator_threads.Testing ->
  forall draws g username g' draws',
    allocator.generate_unused_username draws g = Ok (username, g', draws') ->
    exists n,
      allocator_threads.run (replicate n i)
        {| allocator_threads.generated_usernames := g;
           allocator_threads.draws := draws;
           allocator_threads.threads := ts |}
      = {| allocator_threads.generated_usernames := g';
           allocator_threads.draws := draws';
           allocator_threads.threads := <[i := allocator_threads.Returned username]> ts |}.
Proof.
  intros Hi. induction draws as [| r draws IH]; intros g username g' draws' Hcall;
    [discriminate |].
  rewrite generate_unused_username_cons, candidate_value in Hcall.
  assert (Hfirst : allocator_threads.step i
                     {| allocator_threads.generated_usernames := g;
                        allocator_threads.draws := r :: draws;
                        allocator_threads.threads := ts |}
                   = if bool_decide (("user" +:+ rjust 4 "0" (str (r mod 10000))) ∈ g)
                     then {| allocator_threads.generated_usernames := g;
                             allocator_threads.draws := draws;
                             allocator_threads.threads := ts |}
                     else {| allocator_threads.generated_usernames := g;
                             allocator_threads.draws := draws;
                             allocator_threads.threads :=
                               <[i := allocator_threads.Appending
                                        ("user" +:+ rjust 4 "0" (str (r mod 10000)))]> ts |}).
  { unfold allocator_threads.step.
    cbn [allocator_threads.threads allocator_threads.draws
         allocator_threads.generated_usernames].
    rewrite Hi, candidate_value. reflexivity. }
  destruct (bool_decide _) eqn:Hmem.
  - destruct (IH _ _ _ _ Hcall) as [n Hn]. exists (S n).
    cbn [replicate]. unfold allocator_threads.run in *. cbn [fold_left].
    rewrite Hfirst. exact Hn.
  - injection Hcall as <- <- <-. exists 2%nat.
    cbn [replicate]. unfold allocator_threads.run. cbn [fold_left].
    rewrite Hfirst. unfold allocator_threads.step.
    cbn [allocator_threads.threads allocator_threads.draws
         allocator_threads.generated_usernames].
    rewrite list_lookup_insert_eq by (eapply lookup_lt_Some, Hi).
    rewrite list_insert_insert_eq. reflexivity.
Qed.

(** C6 (the code departs from the claim). Two pool workers are in the
    allocator of a fresh manager and the generator gives both the number
    7. The first tests [user0007] against the empty list; before it
    appends, the second tests [user0007] against the still empty list;
    then both append and return: the second call returns the name the
    first one returned, and the claimed list holds it twice. Moved one
    after the other, the same two threads get different names or the
    second keeps drawing. *)
Theorem allocator_race_returns_same_name_twice :
  let s := allocator_threads.run [0; 1; 0; 1]%nat allocator_threads.two_workers in
  allocator_threads.threads s
  = [allocator_threads.Returned "user0007"; allocator_threads.Returned "user0007"]
  /\ allocator_threads.generated_usernames s = ["user0007"; "user0007"]
  /\ ~ NoDup (allocator_threads.generated_usernames s)
  /\ allocator_threads.threads
       (allocator_threads.run [0; 0; 1; 1]%nat allocator_threads.two_workers)
     = [allocator_threads.Returned "user0007"; allocator_threads.Testing].
Proof.
  cbv zeta.
  assert (Hrace : allocator_threads.run [0; 1; 0; 1]%nat allocator_threads.two_workers
                  = {| allocator_threads.generated_usernames := ["user0007"; "user0007"];
                       allocator_threads.draws := [];
                       allocator_threads.threads :=
                         [allocator_threads.Returned "user0007";
                          allocator_threads.Returned "user0007"] |})
    by (vm_compute; reflexivity).
  rewrite Hrace. cbn [allocator_threads.threads allocator_threads.generated_usernames].
  split; [reflexivity |]. split; [reflexivity |]. split.
  - intros Hnd. apply NoDup_cons in Hnd as [Hnotin _].
    apply Hnotin, list_elem_of_singleton. reflexivity.
  - vm_compute. reflexivity.
Qed.

(** ** The join phase of a bot *)

Section join_phase.
Context {St : Type} (request : St -> outcome (string * St)).

Lemma send_name_reports (a : bot.name_attempt) (status : bot.SendNameStatus) (b : bot.Bot) :
  reports a status ->
  bot.send_name b a = (Ok status, [SendKeys (bot.driver b) "nickname" (bot.username b)]).
Proof.
  intros H. specialize (H b). unfold bot.send_name in *.
  destruct (bot.nickname_found a); [| discriminate].
  simpl in H. rewrite H. reflexivity.
Qed.

Lemma last_cons_default {A} (l : list A) :
  forall n d, List.last (n :: l) d = List.last l n.
Proof.
  induction l as [| x l IH]; intros n d; [reflexivity |].
  change (List.last (n :: x :: l) d) with (List.last (x :: l) d).
  rewrite (IH x d), (IH x n). reflexivity.
Qed.

Lemma renamed_username (names : list string) :
  forall b, bot.username (renamed b names) = List.last names (bot.username b).
Proof.
  induction names as [| n names IH]; intros b; [reflexivity |].
  rewrite last_cons_default. unfold renamed in *. simpl fold_left. rewrite IH.
  reflexivity.
Qed.

Lemma renamed_driver (names : list string) :
  forall b, bot.driver (renamed b names) = bot.driver b.
Proof.
  induction names as [| n names IH]; intros b; [reflexivity |].
  unfold renamed in *. simpl fold_left. rewrite IH. reflexivity.
Qed.

(** [K] collisions, each followed by a new identity, then a last attempt
    that ends the loop. *)
Lemma name_loop_after_collisions (cs : list bot.name_attempt) :
  forall b st names st' final tail verdict,
    Forall (fun a => reports a bot.already_exists) cs ->
    bot.request_many request (length cs) st = Ok (names, st') ->
    reports final (if verdict : bool then bot.success else bot.other_error) ->
    exists ev,
      bot.name_loop request (cs ++ final :: tail) b st
      = (Ok verdict, bot.set_preparing (renamed b names) false, st', ev)
      /\ bot.names_sent ev = bot.username b :: names.
Proof.
  induction cs as [| c cs IH]; intros b st names st' final tail verdict Hcs Hreq Hfinal.
  - injection Hreq as <- <-. simpl.
    rewrite (send_name_reports _ _ _ Hfinal).
    destruct verdict; eexists; split; reflexivity.
  - apply Forall_cons in Hcs as [Hc Hcs]. simpl in Hreq.
    destruct (request st) as [[n1 st1] | e |] eqn:Hcall; try discriminate.
    destruct (bot.request_many request (length cs) st1) as [[names1 st2] | e |] eqn:Hmany;
      try discriminate.
    injection Hreq as <- <-.
    destruct (IH (bot.set_username b n1) st1 names1 st2 final tail verdict Hcs Hmany Hfinal)
      as (ev & Hloop & Hsent).
    simpl. rewrite (send_name_reports _ _ _ Hc), Hcall, Hloop.
    eexists. split; [reflexivity |]. simpl. rewrite Hsent. reflexivity.
Qed.

Lemma send_name_returns (a : bot.name_attempt) (b : bot.Bot)
    (status : bot.SendNameStatus) (ev : list event) :
  bot.send_name b a = (Ok status, ev) ->
  reports a status /\ ev = [SendKeys (bot.driver b) "nickname" (bot.username b)].
Proof.
  unfold reports, bot.send_name.
  destruct (bot.nickname_found a); [| discriminate].
  intros [= Hs <-]. split; [| reflexivity]. intros b0. exact Hs.
Qed.

(** The loop returns only after an attempt that succeeded (true) or hit
    another error (false), all the attempts before it being collisions. *)
Lemma name_loop_exits (attempts : list bot.name_attempt) :
  forall b st verdict b' st' ev,
    bot.name_loop request attempts b st = (Ok verdict, b', st', ev) ->
    exists cs final tail,
      attempts = cs ++ final :: tail
      /\ Forall (fun a => reports a bot.already_exists) cs
      /\ reports final (if verdict : bool then bot.success else bot.other_error)
      /\ length (bot.names_sent ev) = S (length cs).
Proof.
  induction attempts as [| a rest IH]; intros b st verdict b' st' ev; simpl; [discriminate |].
  destruct (bot.send_name b a) as [[[| |] | e |] ev0] eqn:Hsend; try discriminate;
    apply send_name_returns in Hsend as [Hrep ->].
  - intros [= <- <- <- <-]. exists [], a, rest.
    split; [reflexivity |]. split; [constructor |]. split; [exact Hrep | reflexivity].
  - destruct (request st) as [[n1 st1] | e |]; try discriminate.
    destruct (bot.name_loop request rest _ st1) as [[[r1 b1] st2] ev1] eqn:Hloop.
    intros [= -> <- <- <-].
    destruct (IH _ _ _ _ _ _ Hloop) as (cs & final & tail & -> & Hcs & Hfin & Hlen).
    exists (a :: cs), final, tail.
    split; [reflexivity |]. split; [constructor; assumption |]. split; [exact Hfin |].
    simpl. rewrite Hlen. reflexivity.
  - intros [= <- <- <- <-]. exists [], a, rest.
    split; [reflexivity |]. split; [constructor |]. split; [exact Hrep | reflexivity].
Qed.
End join_phase.

Lemma request_many_length {St} (request : St -> outcome (string * St)) (n : nat) :
  forall st names st',
    bot.request_many request n st = Ok (names, st') -> length names = n.
Proof.
  induction n as [| n IH]; intros st names st'; simpl.
  - intros [= <- <-]. reflexivity.
  - destruct (request st) as [[n1 st1] | e |]; try discriminate.
    destruct (bot.request_many request n st1) as [[names1 st2] | e |] eqn:Hmany;
      try discriminate.
    intros [= <- <-]. simpl. f_equal. eauto.
Qed.

(** Counterexample to C3: on a landing page without the lobby-code field,
    [prepare] does not return [False]; the [TimeoutException] of the 5s
    wait leaves it, and [preparing] is still set. *)
Lemma prepare_without_game_input_raises :
  let '(r, b', _, _) :=
    bot.prepare manager.generate_unused_username
      (bot.new_bot 0 123456789 "user0001" 0) scenario.no_game_input
      ([1; 2; 3], scenario.provisioned 123456789 1) in
  r <> Ok false /\ r = Raise TimeoutException /\ bot.preparing b' = true.
Proof. vm_compute. split; [discriminate | split; reflexivity]. Qed.

(** C3, amended. If the lobby-code input field is not found within the 5s
    wait, [prepare] does not return: the [TimeoutException] of the wait
    propagates to the caller; the bot keeps [preparing] set, nothing was
    typed and no new identity was requested. *)
Theorem prepare_propagates_timeout_without_game_input {St : Type}
    (request : St -> outcome (string * St)) (b : bot.Bot) (s : bot.join_script) (st : St) :
  bot.landing_page_opens s = true ->
  bot.game_input_found s = false ->
  bot.prepare request b s st = (Raise TimeoutException, bot.set_preparing b true, st, []).
Proof.
  intros Hopen Hmissing. unfold bot.prepare, bot.open_url, bot.join_lobby.
  rewrite Hopen, Hmissing. reflexivity.
Qed.

Lemma prepare_propagates_timeout_without_game_input_witness :
  bot.prepare manager.generate_unused_username
    (bot.new_bot 0 123456789 "user0001" 0) scenario.no_game_input
    ([1; 2; 3], scenario.provisioned 123456789 1)
  = (Raise TimeoutException,
     bot.set_preparing (bot.new_bot 0 123456789 "user0001" 0) true,
     ([1; 2; 3], scenario.provisioned 123456789 1), []).
Proof.
  apply (prepare_propagates_timeout_without_game_input
           manager.generate_unused_username); reflexivity.
Defined.

(** C4. Once the lobby was entered, [prepare] returns only from the name
    loop: [True] after an attempt the platform accepted, [False] after an
    attempt stopped by another error, every attempt before that one being
    a collision answered by a new identity. Hence after [K] collisions the
    call returns at attempt [K + 1] with the verdict of that attempt, and
    what the platform would answer next is never asked for. *)
Theorem prepare_retries_on_collision_only {St : Type}
    (request : St -> outcome (string * St)) (b : bot.Bot) (s : bot.join_script) (st : St) :
  bot.landing_page_opens s = true ->
  bot.game_input_found s = true ->
  bot.join_pin_button s = bot.Clicked ->
  (forall K cs final tail verdict names st',
      bot.attempts s = cs ++ final :: tail ->
      length cs = K ->
      Forall (fun a => reports a bot.already_exists) cs ->
      reports final (if verdict : bool then bot.success else bot.other_error) ->
      bot.request_many request K st = Ok (names, st') ->
      exists b' ev,
        bot.prepare request b s st = (Ok verdict, b', st', ev)
        /\ bot.names_sent ev = bot.username b :: names
        /\ length (bot.names_sent ev) = S K
        /\ bot.username b' = List.last names (bot.username b)
        /\ bot.preparing b' = false)
  /\ (forall verdict b' st' ev,
        bot.prepare request b s st = (Ok verdict, b', st', ev) ->
        exists cs final tail,
          bot.attempts s = cs ++ final :: tail
          /\ Forall (fun a => reports a bot.already_exists) cs
          /\ reports final (if verdict : bool then bot.success else bot.other_error)
          /\ length (bot.names_sent ev) = S (length cs)).
Proof.
  intros Hopen Hinput Hpin. split.
  - intros K cs final tail verdict names st' Hatt HK Hcs Hfinal Hreq.
    subst K.
    destruct (name_loop_after_collisions request cs (bot.set_preparing b true) st
                names st' final tail verdict Hcs Hreq Hfinal) as (ev & Hloop & Hsent).
    unfold bot.prepare, bot.open_url, bot.join_lobby.
    rewrite Hopen, Hinput, Hpin, Hatt. simpl. rewrite Hloop.
    eexists _, _. split; [reflexivity |]. simpl. rewrite Hsent. simpl.
    split; [reflexivity |]. split.
    + f_equal. exact (request_many_length _ _ _ _ _ Hreq).
    + split; [| reflexivity]. apply (renamed_username names (bot.set_preparing b true)).
  - intros verdict b' st' ev. unfold bot.prepare, bot.open_url, bot.join_lobby.
    rewrite Hopen, Hinput, Hpin. simpl.
    destruct (bot.name_loop request (bot.attempts s) _ st) as [[[r1 b1] st1] ev1] eqn:Hloop.
    intros [= -> <- <- <-]. simpl. exact (name_loop_exits request _ _ _ _ _ _ _ Hloop).
Qed.

Lemma prepare_retries_on_collision_only_witness :
  exists b' ev,
    bot.prepare manager.generate_unused_username
      (bot.new_bot 1 123456789 "user0001" 1)
      (scenario.lobby_page [scenario.collision; scenario.collision; scenario.accepted;
                            scenario.overlay])
      ([1; 2; 2; 3], manager.set_generated_usernames (scenario.provisioned 123456789 2)
                       ["user0001"])
    = (Ok true, b', ([], manager.set_generated_usernames (scenario.provisioned 123456789 2)
                           ["user0001"; "user0002"; "user0003"]), ev)
    /\ bot.names_sent ev = ["user0001"; "user0002"; "user0003"]
    /\ length (bot.names_sent ev) = 3%nat
    /\ bot.username b' = "user0003"
    /\ bot.preparing b' = false.
Proof.
  destruct (prepare_retries_on_collision_only manager.generate_unused_username
              (bot.new_bot 1 123456789 "user0001" 1)
              (scenario.lobby_page [scenario.collision; scenario.collision;
                                    scenario.accepted; scenario.overlay])
              ([1; 2; 2; 3], manager.set_generated_usernames
                               (scenario.provisioned 123456789 2) ["user0001"])
              eq_refl eq_refl eq_refl) as [Hretry _].
  apply (Hretry 2%nat [scenario.collision; scenario.collision] scenario.accepted
           [scenario.overlay] true ["user0002"; "user0003"]).
  - reflexivity.
  - reflexivity.
  - repeat constructor.
  - intros b0. reflexivity.
  - vm_compute. reflexivity.
Defined.

(** ** What [run] starts and closes *)

Lemma sessions_closed_app (ev ev' : list event) :
  sessions_closed (ev ++ ev') = sessions_closed ev ++ sessions_closed ev'.
Proof. apply omap_app. Qed.

Lemma threads_started_app (ev ev' : list event) :
  threads_started (ev ++ ev') = threads_started ev ++ threads_started ev'.
Proof. apply omap_app. Qed.

Lemma sessions_closed_cons (e : event) (ev : list event) :
  sessions_closed (e :: ev)
  = match e with DriverQuit s => s :: sessions_closed ev | _ => sessions_closed ev end.
Proof. destruct e; reflexivity. Qed.

Lemma threads_started_cons (e : event) (ev : list event) :
  threads_started (e :: ev)
  = match e with ThreadStart i => i :: threads_started ev | _ => threads_started ev end.
Proof. destruct e; reflexivity. Qed.

Ltac trace_norm :=
  repeat (progress (rewrite ?sessions_closed_app, ?threads_started_app,
                      ?sessions_closed_cons, ?threads_started_cons; cbv iota beta)).

Lemma name_loop_quiet {St} (request : St -> outcome (string * St))
    (attempts : list bot.name_attempt) :
  forall b st r b' st' ev,
    bot.name_loop request attempts b st = (r, b', st', ev) ->
    sessions_closed ev = [] /\ threads_started ev = []
    /\ bot.driver b' = bot.driver b /\ bot.index b' = bot.index b.
Proof.
  induction attempts as [| a rest IH]; intros b st r b' st' ev; simpl.
  - intros [= <- <- <- <-]. auto.
  - unfold bot.send_name.
    destruct (bot.nickname_found a); [| intros [= <- <- <- <-]; auto].
    destruct (bot.join_button a); try (intros [= <- <- <- <-]; auto; fail).
    destruct (bot.instructions_reached a); [intros [= <- <- <- <-]; auto |].
    destruct (request st) as [[new_name st1] | e |];
      try (intros [= <- <- <- <-]; auto; fail).
    destruct (bot.name_loop request rest _ st1) as [[[r1 b1] st2] ev1] eqn:Hloop.
    intros [= <- <- <- <-]. apply IH in Hloop as (Hq & Hs & Hd & Hi).
    trace_norm. rewrite Hq, Hs. auto.
Qed.

Lemma prepare_quiet {St} (request : St -> outcome (string * St))
    (b : bot.Bot) (s : bot.join_script) (st : St) :
  forall r b' st' ev,
    bot.prepare request b s st = (r, b', st', ev) ->
    sessions_closed ev = [] /\ threads_started ev = []
    /\ bot.driver b' = bot.driver b /\ bot.index b' = bot.index b.
Proof.
  intros r b' st' ev. unfold bot.prepare, bot.join_lobby.
  destruct (bot.open_url s); try (intros [= <- <- <- <-]; auto; fail).
  destruct (bot.game_input_found s); [| intros [= <- <- <- <-]; auto].
  destruct (bot.click (bot.join_pin_button s)); try (intros [= <- <- <- <-]; auto; fail).
  destruct (bot.name_loop request _ _ st) as [[[r1 b1] st1] ev1] eqn:Hloop.
  intros [= <- <- <- <-]. apply name_loop_quiet in Hloop as (Hq & Hs & Hd & Hi).
  trace_norm. rewrite Hq, Hs. auto.
Qed.

Lemma prepare_bots_quiet (w : manager.world) (bs : list bot.Bot) :
  forall st rs bs' ev st',
    manager.prepare_bots w bs st = (rs, bs', ev, st') ->
    sessions_closed ev = [] /\ threads_started ev = []
    /\ map bot.driver bs' = map bot.driver bs /\ map bot.index bs' = map bot.index bs.
Proof.
  induction bs as [| b rest IH]; intros st rs bs' ev st'; simpl.
  - intros [= <- <- <- <-]. auto.
  - destruct (bot.prepare _ b _ st) as [[[r1 b1] st1] ev1] eqn:Hprep.
    destruct (manager.prepare_bots w rest st1) as [[[rs2 bs2] ev2] st2] eqn:Hrest.
    intros [= <- <- <- <-].
    apply prepare_quiet in Hprep as (Hq & Hs & Hd & Hi).
    apply IH in Hrest as (Hq' & Hs' & Hd' & Hi').
    trace_norm. rewrite Hq, Hs, Hq', Hs'. simpl.
    rewrite Hd, Hi, Hd', Hi'. auto.
Qed.

Lemma create_bots_quiet (w : manager.world) (indices : list nat) :
  forall st rs ev st',
    manager.create_bots w indices st = (rs, ev, st') ->
    sessions_closed ev = [] /\ threads_started ev = [].
Proof.
  induction indices as [| i rest IH]; intros st rs ev st'; simpl.
  - intros [= <- <- <-]. auto.
  - destruct (manager.create_bot w i st) as [[r1 ev1] st1] eqn:Hone.
    destruct (manager.create_bots w rest st1) as [[rs2 ev2] st2] eqn:Hrest.
    intros [= <- <- <-].
    apply create_bot_cases in Hone as (_ & Hq & Hs & _).
    apply IH in Hrest as (Hq' & Hs').
    trace_norm. rewrite Hq, Hs, Hq', Hs'. auto.
Qed.

Lemma start_bots_trace (bs : list bot.Bot) :
  sessions_closed (manager.start_bots bs) = []
  /\ threads_started (manager.start_bots bs) = map bot.index bs.
Proof.
  induction bs as [| b rest [IHq IHs]]; [auto |].
  change (manager.start_bots (b :: rest))
    with ([ThreadStart (bot.index b);
           Log DEBUG ("Bot " +:+ bot.name b +:+ " (" +:+ bot.username b
                      +:+ ") started voting.")] ++ manager.start_bots rest).
  trace_norm. rewrite IHq, IHs. auto.
Qed.

Lemma join_bots_quiet (w : manager.world) (bs : list bot.Bot) :
  forall r ev, manager.join_bots w bs = (r, ev) ->
               sessions_closed ev = [] /\ threads_started ev = [].
Proof.
  induction bs as [| b rest IH]; intros r ev; simpl.
  - intros [= <- <-]. auto.
  - destruct (manager.thread_join w (bot.index b)); try (intros [= <- <-]; auto; fail).
    destruct (manager.join_bots w rest) as [r1 ev1].
    intros [= <- <-]. trace_norm. apply (IH _ _ eq_refl).
Qed.

(** [cleanup] closes the sessions in order and stops at the first
    [quit()] that raises. *)
Lemma cleanup_trace (w : manager.world) (bs : list bot.Bot) :
  forall r ev,
    manager.cleanup w bs = (r, ev) ->
    threads_started ev = []
    /\ (r = Ok tt -> sessions_closed ev = map bot.driver bs)
    /\ ((forall b, b ∈ bs -> manager.driver_quit w (bot.driver b) = None) -> r = Ok tt).
Proof.
  induction bs as [| b rest IH]; intros r ev; simpl.
  - intros [= <- <-]. auto.
  - destruct (manager.driver_quit w (bot.driver b)) as [e |] eqn:Hquit.
    + intros [= <- <-]. split; [reflexivity |]. split; [discriminate |].
      intros Hall. rewrite (Hall b) in Hquit by (apply elem_of_cons; auto). discriminate.
    + destruct (manager.cleanup w rest) as [r1 ev1].
      intros [= <- <-]. destruct (IH _ _ eq_refl) as (Hs & Hq & Hok).
      trace_norm. split; [exact Hs |]. split.
      * intros Hr. simpl. f_equal. exact (Hq Hr).
      * intros Hall. apply Hok. intros b0 Hb0. apply Hall, elem_of_cons. auto.
Qed.

Lemma vote_and_cleanup_trace (w : manager.world) (bs : list bot.Bot) (results : list bool) :
  forall r ev,
    manager.vote_and_cleanup w bs results = (r, ev) ->
    (r = Ok tt -> sessions_closed ev = map bot.driver bs)
    /\ (any results = true -> threads_started ev = map bot.index bs)
    /\ (any results = false -> threads_started ev = []).
Proof.
  intros r ev. unfold manager.vote_and_cleanup.
  destruct (start_bots_trace bs) as [Hstart_q Hstart_s].
  destruct (any results) eqn:Hany; simpl.
  - destruct (manager.join_bots w bs) as [j ev_join] eqn:Hjoin.
    apply join_bots_quiet in Hjoin as [Hjq Hjs].
    destruct (manager.cleanup w bs) as [r1 ev1] eqn:Hclean.
    apply cleanup_trace in Hclean as (Hcs & Hcq & _).
    assert (Hpartial : forall l : list event,
               (l = [] \/ exists msg, l = [Log ERROR msg]) ->
               sessions_closed l = [] /\ threads_started l = []).
    { intros l [-> | [msg ->]]; auto. }
    match goal with |- context [if negb (all results) then ?a else ?b] =>
      destruct (Hpartial (if negb (all results) then a else b)) as [Hpq Hps];
        [destruct (negb (all results)); eauto |]
    end.
    destruct j; intros [= <- <-]; trace_norm;
      rewrite ?Hpq, ?Hps, ?Hstart_q, ?Hstart_s, ?Hjq, ?Hjs, ?Hcs; simpl;
      rewrite ?app_nil_r; (split; [| split]); auto; try discriminate.
  - destruct (manager.cleanup w bs) as [r1 ev1] eqn:Hclean.
    apply cleanup_trace in Hclean as (Hcs & Hcq & _).
    intros [= <- <-]. trace_norm. (split; [| split]); auto; discriminate.
Qed.

Lemma create_bots_ids (w : manager.world) (indices : list nat) :
  forall st rs ev st' bs,
    manager.create_bots w indices st = (rs, ev, st') ->
    manager.gather rs = Ok bs ->
    map bot.index bs = indices /\ map bot.driver bs = indices.
Proof.
  induction indices as [| i rest IH]; intros st rs ev st' bs; simpl.
  - intros [= <- <- <-] [= <-]. auto.
  - destruct (manager.create_bot w i st) as [[r1 e1] s1] eqn:Hone.
    destruct (manager.create_bots w rest s1) as [[rs2 e2] s2] eqn:Hrest.
    intros [= <- <- <-] Hg.
    apply create_bot_cases in Hone as (_ & _ & _ & Hr).
    destruct r1 as [b | e |]; [| exfalso; exact (gather_raise_not_ok _ _ _ Hg) | discriminate].
    destruct Hr as (u & _ & ->).
    apply gather_ok_cons in Hg as (xs & Hg & ->).
    destruct (IH _ _ _ _ _ Hrest Hg) as [Hi Hd]. simpl. rewrite Hi, Hd. auto.
Qed.

(** A [run] that returns went through both pools and through
    [vote_and_cleanup]; nothing is started or closed before that point. *)
Lemma run_returns_inv (w : manager.world) (draws : list Z) (m : manager.BotManager) :
  forall ev m',
    manager.run w draws m = (Ok tt, ev, m') ->
    exists bs0 st1 prepared bs ev3 st2 results ev_before ev_after,
      manager.prepare_bots w bs0 st1 = (prepared, bs, ev3, st2)
      /\ manager.gather prepared = Ok results
      /\ manager.vote_and_cleanup w bs results = (Ok tt, ev_after)
      /\ ev = ev_before ++ ev_after
      /\ sessions_closed ev_before = [] /\ threads_started ev_before = []
      /\ map bot.driver bs = seq 0 (Z.to_nat (manager.bot_count m))
      /\ map bot.index bs = seq 0 (Z.to_nat (manager.bot_count m))
      /\ manager.bots m' = Some bs.
Proof.
  intros ev m'. unfold manager.run.
  destruct (manager.bot_count m <? 1); [discriminate |].
  destruct (manager.create_bots _ _ _) as [[created ev1] st1] eqn:Hcreate.
  destruct (manager.gather created) as [bs0 | e |] eqn:Hgather; try discriminate.
  destruct (manager.prepare_bots _ _ _) as [[[prepared bs] ev3] st2] eqn:Hprep.
  destruct (manager.gather prepared) as [results | e |] eqn:Hresults; try discriminate.
  destruct (manager.vote_and_cleanup _ _ _) as [r4 ev4] eqn:Hvote.
  intros [= -> <- <-].
  pose proof (create_bots_quiet _ _ _ _ _ _ Hcreate) as [Hq1 Hs1].
  pose proof (prepare_bots_quiet _ _ _ _ _ _ _ Hprep) as (Hq3 & Hs3 & Hd & Hi).
  pose proof (create_bots_ids _ _ _ _ _ _ _ Hcreate Hgather) as [Hidx Hdrv].
  eexists bs0, _, prepared, bs, ev3, st2, results.
  exists ([Log INFO ("Creating " +:+ str (manager.bot_count m) +:+ " bots.")]
            ++ ev1 ++ [Log INFO "Joining lobby with all bots."] ++ ev3), ev4.
  split; [exact Hprep |]. split; [exact Hresults |]. split; [exact Hvote |].
  split; [rewrite <- !app_assoc; reflexivity |].
  trace_norm. rewrite Hq1, Hs1, Hq3, Hs3, Hd, Hi, Hdrv, Hidx. auto.
Qed.

(** When [run] returns, either every bot was started or none was: the
    voting threads are never started for the joined bots alone. *)
Lemma run_starts_all_or_none (w : manager.world) (draws : list Z) (m : manager.BotManager)
    (ev : list event) (m' : manager.BotManager) :
  manager.run w draws m = (Ok tt, ev, m') ->
  threads_started ev = seq 0 (Z.to_nat (manager.bot_count m)) \/ threads_started ev = [].
Proof.
  intros Hrun.
  apply run_returns_inv in Hrun
    as (bs0 & st1 & prepared & bs & ev3 & st2 & results & ev_b & ev_a
        & _ & _ & Hvote & -> & _ & Hs & _ & Hidx & _).
  apply vote_and_cleanup_trace in Hvote as (_ & Hsome & Hnone).
  rewrite threads_started_app, Hs. simpl.
  destruct (any results); [left; rewrite Hsome, Hidx | right; rewrite Hnone]; reflexivity.
Qed.

(** C1 (the code departs from the claim). Three bots, the second one
    stopped by an overlay: its [prepare] returns [False], [run] logs that
    it continues with 2/3 bots, and then starts the voting thread of all
    three, the one that did not join included. *)
Theorem run_starts_voting_for_bot_that_did_not_join :
  let w := scenario.bot1_fails in
  let m := scenario.provisioned 123456789 3 in
  let '(created, _, st1) := manager.create_bots w (seq 0 3) ([1; 2; 3], m) in
  exists bs,
    manager.gather created = Ok bs
    /\ fst (fst (fst (manager.prepare_bots w bs (fst st1, manager.set_bots (snd st1) bs))))
       = [Ok true; Ok false; Ok true]
    /\ let '(r, ev, _) := manager.run w [1; 2; 3] m in
       r = Ok tt
       /\ threads_started ev = [0; 1; 2]%nat
       /\ In (Log ERROR "Not all bots were able to join the lobby, continuing with 2/3 bots.") ev.
Proof.
  vm_compute. eexists. split; [reflexivity |]. split; [reflexivity |].
  split; [reflexivity |]. split; [reflexivity |].
  repeat (first [left; reflexivity | right]).
Qed.

(** ** Teardown *)

(** Counterexample to C2: when closing the first session raises, [run]
    ends with that exception and the two other sessions are never closed;
    and when a [prepare] raises, [run] ends before any teardown. *)
Lemma run_leaves_sessions_open :
  (let '(r, ev, _) := manager.run scenario.first_quit_raises [1; 2; 3]
                        (scenario.provisioned 123456789 3) in
   r = Raise WebDriverException /\ sessions_closed ev = [0%nat])
  /\ (let '(r, ev, _) := manager.run (scenario.quiet_world (fun _ => scenario.no_game_input))
                           [1; 2; 3] (scenario.provisioned 123456789 3) in
      r = Raise TimeoutException /\ sessions_closed ev = []).
Proof. vm_compute. repeat split. Qed.

(** C2, amended. Whenever [run] returns normally, [driver.quit()] has
    been called exactly once on the session of every bot, in index order,
    whether the bots joined or not and whether the voting ended by itself
    or by an interrupt. (A [quit()] that raises is not caught: it ends
    [cleanup] and [run], and nothing is logged.) *)
Theorem run_returning_closes_every_session_once
    (w : manager.world) (draws : list Z) (m : manager.BotManager)
    (ev : list event) (m' : manager.BotManager) :
  manager.run w draws m = (Ok tt, ev, m') ->
  exists bs,
    manager.bots m' = Some bs
    /\ length bs = Z.to_nat (manager.bot_count m)
    /\ sessions_closed ev = map bot.driver bs
    /\ NoDup (map bot.driver bs).
Proof.
  intros Hrun.
  apply run_returns_inv in Hrun
    as (bs0 & st1 & prepared & bs & ev3 & st2 & results & ev_b & ev_a
        & _ & _ & Hvote & -> & Hq & _ & Hdrv & _ & Hbots).
  apply vote_and_cleanup_trace in Hvote as (Hclosed & _ & _).
  exists bs. split; [exact Hbots |]. split.
  - rewrite <- (length_map bot.driver), Hdrv. apply length_seq.
  - rewrite sessions_closed_app, Hq, (Hclosed eq_refl), Hdrv. split; [reflexivity |].
    apply NoDup_seq.
Qed.

Lemma run_returning_closes_every_session_once_witness :
  exists bs,
    manager.bots (snd (manager.run scenario.bot1_fails [1; 2; 3]
                                   (scenario.provisioned 123456789 3))) = Some bs
    /\ length bs = 3%nat
    /\ sessions_closed (snd (fst (manager.run scenario.bot1_fails [1; 2; 3]
                                              (scenario.provisioned 123456789 3))))
       = map bot.driver bs
    /\ NoDup (map bot.driver bs).
Proof.
  apply (run_returning_closes_every_session_once scenario.bot1_fails [1; 2; 3]
           (scenario.provisioned 123456789 3)).
  vm_compute. reflexivity.
Defined.

(** ** Exit status *)

Lemma init_except_branch (h : host) (lobby_id bot_count : Z) (hl dno re : bool) :
  forall m ev h',
    manager.init h lobby_id bot_count hl dno re = (Ok m, ev, h') ->
    manager.bot_count m = bot_count
    /\ (manager.chrome_version m = None -> manager.generated_usernames m = None).
Proof.
  intros m ev h'. unfold manager.init.
  destruct (should_download h ".chromedriver" None) as [needed | e |].
  - destruct (install h ".chromedriver" re) as [[[[v p] | e |] ev1] h1].
    + intros [= <- <- <-]. simpl. split; [reflexivity | discriminate].
    + destruct (is_Exception e); [| discriminate]. intros [= <- <- <-]. auto.
    + discriminate.
  - destruct (is_Exception e); [| discriminate]. intros [= <- <- <-]. auto.
  - discriminate.
Qed.

Lemma create_bots_unprovisioned (w : manager.world) (st : manager.shared) (indices : list nat) :
  manager.generated_usernames (snd st) = None ->
  exists ev,
    manager.create_bots w indices st
    = (map (fun _ => Raise (AttributeError "generated_usernames")) indices, ev, st).
Proof.
  intros Hnone. induction indices as [| i rest [ev IH]]; simpl; [eauto |].
  unfold manager.create_bot, manager.generate_unused_username.
  destruct st as [draws m]. simpl in Hnone. rewrite Hnone.
  unfold manager.create_bot, manager.generate_unused_username in IH.
  rewrite IH. eauto.
Qed.

Lemma gather_all_raise {A} (e : exn) (indices : list nat) :
  indices <> [] ->
  manager.gather (A := A) (map (fun _ => Raise e) indices) = Raise e.
Proof.
  intros Hne. destruct indices as [| i rest]; [contradiction |]. clear Hne.
  revert i. induction rest as [| j rest IH]; intros i; [reflexivity |].
  simpl in *. rewrite (IH j). reflexivity.
Qed.

(** A manager whose provisioning failed cannot run: an exception leaves
    [run] before any bot exists. *)
Lemma run_unprovisioned (w : manager.world) (draws : list Z) (m : manager.BotManager) :
  manager.generated_usernames m = None ->
  exists e, fst (fst (manager.run w draws m)) = Raise e /\ e <> KeyboardInterrupt.
Proof.
  intros Hnone. unfold manager.run.
  destruct (Z.ltb_spec (manager.bot_count m) 1) as [Hlt | Hge].
  { eexists. split; [reflexivity | discriminate]. }
  destruct (create_bots_unprovisioned w (draws, m)
              (seq 0 (Z.to_nat (manager.bot_count m))) Hnone) as [ev ->].
  rewrite gather_all_raise.
  - eexists. split; [reflexivity | discriminate].
  - intros Hnil. apply (f_equal length) in Hnil. rewrite length_seq in Hnil.
    simpl in Hnil. lia.
Qed.

Lemma run_when_nobody_joined (w : manager.world) (draws : list Z) (m : manager.BotManager) :
  1 <= manager.bot_count m ->
  nobody_joined w draws m ->
  (forall i, manager.driver_quit w i = None) ->
  fst (fst (manager.run w draws m)) = Ok tt.
Proof.
  intros Hcount (created & ev1 & st1 & bs0 & prepared & bs & ev3 & st2 & results
                 & Hcreate & Hgather & Hprep & Hresults & Hany) Hquit.
  unfold manager.run.
  destruct (Z.ltb_spec (manager.bot_count m) 1) as [Hlt | _]; [lia |].
  rewrite Hcreate, Hgather, Hprep, Hresults.
  unfold manager.vote_and_cleanup. rewrite Hany. simpl.
  destruct (manager.cleanup w bs) as [r ev] eqn:Hclean. simpl.
  apply cleanup_trace in Hclean as (_ & _ & Hok). apply Hok. auto.
Qed.

(** Counterexample to C9: provisioning succeeds, none of the three bots
    joins, [run] reports it and returns, and the process exits with 0. *)
Lemma exit_status_zero_when_nobody_joins :
  let '(r, ev) := entry.main scenario.host_ready scenario.nobody_joins [1; 2; 3]
                    (scenario.command_line 3) in
  entry.exit_status r = Some 0
  /\ In (Log CRITICAL "All bots failed to join the lobby, exiting.") ev
  /\ threads_started ev = [].
Proof.
  vm_compute. split; [reflexivity |]. split; [| reflexivity].
  repeat (first [left; reflexivity | right]).
Qed.

(** C9, amended. The program never sets an exit status itself: the
    process exits with 1 when an exception escapes [main] and with 0 when
    [main] returns. When provisioning fails, [run] is still called on the
    half-built manager and raises, so the status is 1; when no bot joins,
    [run] tears down and returns, so the status is 0 (unless a [quit()]
    raises). *)
Theorem exit_status_of_main (h : host) (w : manager.world) (draws : list Z) (a : entry.args) :
  entry.arg_help a = false ->
  (provisioning_fails h a -> entry.exit_status (fst (entry.main h w draws a)) = Some 1)
  /\ (forall m ev h',
        manager.init h (entry.arg_lobby_id a) (entry.arg_bot_count a) (entry.arg_headless a)
                     false false = (Ok m, ev, h') ->
        1 <= entry.arg_bot_count a ->
        nobody_joined w draws m ->
        (forall i, manager.driver_quit w i = None) ->
        entry.exit_status (fst (entry.main h w draws a)) = Some 0).
Proof.
  intros Hhelp. split.
  - intros (m & ev & h' & Hinit & Hnone).
    destruct (init_except_branch _ _ _ _ _ _ _ _ _ Hinit) as [_ Hgen].
    destruct (run_unprovisioned w draws m (Hgen Hnone)) as (e & Hrun & Hki).
    unfold entry.main. rewrite Hhelp, Hinit.
    destruct (manager.run w draws m) as [[r ev'] m']. simpl in *. subst r.
    destruct e; try reflexivity. contradiction.
  - intros m ev h' Hinit Hcount Hnobody Hquit.
    destruct (init_except_branch _ _ _ _ _ _ _ _ _ Hinit) as [Hbc _].
    pose proof (run_when_nobody_joined w draws m ltac:(lia) Hnobody Hquit) as Hrun.
    unfold entry.main. rewrite Hhelp, Hinit.
    destruct (manager.run w draws m) as [[r ev'] m']. simpl in *. subst r. reflexivity.
Qed.

Lemma exit_status_of_main_witness :
  entry.exit_status (fst (entry.main scenario.host_fresh scenario.all_join [1; 2; 3]
                                     (scenario.command_line 3))) = Some 1
  /\ entry.exit_status (fst (entry.main scenario.host_ready scenario.nobody_joins [1; 2; 3]
                                        (scenario.command_line 3))) = Some 0.
Proof.
  split.
  - apply (exit_status_of_main scenario.host_fresh scenario.all_join [1; 2; 3]
             (scenario.command_line 3) eq_refl).
    eexists _, _, _. split; [vm_compute; reflexivity | reflexivity].
  - apply (proj2 (exit_status_of_main scenario.host_ready scenario.nobody_joins [1; 2; 3]
                    (scenario.command_line 3) eq_refl)
             (scenario.provisioned 123456789 3) [] scenario.host_ready).
    + vm_compute. reflexivity.
    + simpl. lia.
    + eexists _, _, _, _, _, _, _, _, _.
      split; [vm_compute; reflexivity |]. split; [vm_compute; reflexivity |].
      split; [vm_compute; reflexivity |]. split; [vm_compute; reflexivity |]. reflexivity.
    + reflexivity.
Defined.

(** ** The voting loop and the stop signal *)

Section voting.
Context (vote_function : Z -> Z -> outcome Z) (browser : nat -> bot.tick).

Lemma steps_succ (n : nat) (t : bot.thread) :
  bot.steps vote_function browser (S n) t
  = bot.step vote_function browser (bot.steps vote_function browser n t).
Proof.
  revert t. induction n as [| n IH]; intros t; [reflexivity |].
  change (bot.steps vote_function browser (S (S n)) t)
    with (bot.steps vote_function browser (S n) (bot.step vote_function browser t)).
  rewrite IH. reflexivity.
Qed.

(** At the condition of the outer [while], a cleared flag ends the loop. *)
Lemma step_at_loop_head (t : bot.thread) :
  bot.at_pc t = bot.LoopHead ->
  bot.stop_signal (browser (bot.now t)) = true \/ bot.voting (bot.self t) = false ->
  bot.at_pc (bot.step vote_function browser t) = bot.Finished
  /\ bot.voting (bot.self (bot.step vote_function browser t)) = false.
Proof.
  intros Hpc Hstop. unfold bot.step. rewrite Hpc.
  assert (bot.voting (if bot.stop_signal (browser (bot.now t))
                      then bot.set_voting (bot.self t) false else bot.self t) = false) as ->.
  { destruct Hstop as [-> | Hv]; [reflexivity |].
    destruct (bot.stop_signal _); [reflexivity | exact Hv]. }
  rewrite andb_false_r. split; reflexivity.
Qed.

(** Inside [wait_for_new_round], only the URL is looked at. *)
Lemma step_waiting_for_round (t : bot.thread) :
  bot.at_pc t = bot.WaitRound ->
  bot.check_game_over (bot.current_url (browser (bot.now t))) = false ->
  bot.contains "gameblock" (bot.current_url (browser (bot.now t))) = false ->
  bot.at_pc (bot.step vote_function browser t) = bot.WaitRound
  /\ bot.now (bot.step vote_function browser t) = S (bot.now t).
Proof.
  intros Hpc Hover Hblock. unfold bot.step. rewrite Hpc, Hover, Hblock.
  split; reflexivity.
Qed.

(** Inside the polling loop of [vote], only the URL and the buttons are
    looked at. *)
Lemma step_polling_for_buttons (t : bot.thread) :
  bot.at_pc t = bot.VotePoll ->
  bot.check_game_over (bot.current_url (browser (bot.now t))) = false ->
  bot.answer_buttons (browser (bot.now t)) = None ->
  bot.at_pc (bot.step vote_function browser t) = bot.VotePoll
  /\ bot.now (bot.step vote_function browser t) = S (bot.now t).
Proof.
  intros Hpc Hover Hnone. unfold bot.step. rewrite Hpc, Hover, Hnone.
  split; reflexivity.
Qed.

Lemma steps_waiting_for_round (n : nat) :
  forall t,
    bot.at_pc t = bot.WaitRound ->
    (forall k, bot.check_game_over (bot.current_url (browser k)) = false
               /\ bot.contains "gameblock" (bot.current_url (browser k)) = false) ->
    bot.at_pc (bot.steps vote_function browser n t) = bot.WaitRound.
Proof.
  induction n as [| n IH]; intros t Hpc Hurl; [exact Hpc |].
  simpl. apply IH; [| exact Hurl].
  destruct (Hurl (bot.now t)) as [Hover Hblock].
  apply (step_waiting_for_round t Hpc Hover Hblock).
Qed.

Lemma steps_polling_for_buttons (n : nat) :
  forall t,
    bot.at_pc t = bot.VotePoll ->
    (forall k, bot.check_game_over (bot.current_url (browser k)) = false
               /\ bot.answer_buttons (browser k) = None) ->
    bot.at_pc (bot.steps vote_function browser n t) = bot.VotePoll.
Proof.
  induction n as [| n IH]; intros t Hpc Hurl; [exact Hpc |].
  simpl. apply IH; [| exact Hurl].
  destruct (Hurl (bot.now t)) as [Hover Hnone].
  apply (step_polling_for_buttons t Hpc Hover Hnone).
Qed.
End voting.

(** Counterexample to C5: a thread inside [wait_for_new_round], on a page
    that is neither a new round nor the end of the game, receives the
    stop signal at every interval; its flag is cleared from the first
    interval on, and yet there is no number of intervals after which it
    has left the loop. *)
Lemma stop_signal_ignored_while_waiting_for_round :
  bot.voting (bot.self (bot.steps allocator.vote_function scenario.answer_sent_for_ever 1
                          scenario.waiting_thread)) = false
  /\ ~ exists n,
        bot.running (bot.at_pc (bot.steps allocator.vote_function
                                  scenario.answer_sent_for_ever n
                                  scenario.waiting_thread)) = false.
Proof.
  split; [reflexivity |]. intros [n Hstopped].
  rewrite (steps_waiting_for_round allocator.vote_function scenario.answer_sent_for_ever
             n scenario.waiting_thread) in Hstopped.
  - discriminate.
  - reflexivity.
  - intros k. split; reflexivity.
Qed.

(** C5, amended. The voting flag is read at one place only, the condition
    of the outer [while]: a thread at that point with the flag cleared
    leaves the loop there, whatever the page shows. A thread polling for
    the answer options goes on polling as long as the options are absent
    and the game is not over, and a thread waiting for the round to
    advance goes on waiting as long as the page shows neither a new round
    nor the end of the game, whether or not the flag was cleared. *)
Theorem stop_signal_read_at_loop_head_only
    (vote_function : Z -> Z -> outcome Z) (browser : nat -> bot.tick) (t : bot.thread) :
  (bot.at_pc t = bot.LoopHead ->
   bot.stop_signal (browser (bot.now t)) = true \/ bot.voting (bot.self t) = false ->
   bot.at_pc (bot.step vote_function browser t) = bot.Finished
   /\ bot.voting (bot.self (bot.step vote_function browser t)) = false)
  /\ (bot.at_pc t = bot.VotePoll ->
      (forall k, bot.check_game_over (bot.current_url (browser k)) = false
                 /\ bot.answer_buttons (browser k) = None) ->
      forall n, bot.at_pc (bot.steps vote_function browser n t) = bot.VotePoll)
  /\ (bot.at_pc t = bot.WaitRound ->
      (forall k, bot.check_game_over (bot.current_url (browser k)) = false
                 /\ bot.contains "gameblock" (bot.current_url (browser k)) = false) ->
      forall n, bot.at_pc (bot.steps vote_function browser n t) = bot.WaitRound).
Proof.
  split; [apply step_at_loop_head |]. split.
  - intros Hpc Hurl n. apply steps_polling_for_buttons; assumption.
  - intros Hpc Hurl n. apply steps_waiting_for_round; assumption.
Qed.

Lemma stop_signal_read_at_loop_head_only_witness :
  (let t := bot.steps allocator.vote_function scenario.answer_sent_for_ever 1
              (bot.vote_loop (bot.new_bot 0 123456789 "user0001" 0)) in
   bot.at_pc t = bot.LoopHead
   /\ bot.at_pc (bot.step allocator.vote_function scenario.answer_sent_for_ever t)
      = bot.Finished)
  /\ bot.at_pc (bot.steps allocator.vote_function scenario.answer_sent_for_ever 1000
                  scenario.waiting_thread) = bot.WaitRound.
Proof.
  split.
  - cbv zeta. split; [reflexivity |].
    apply (stop_signal_read_at_loop_head_only allocator.vote_function
             scenario.answer_sent_for_ever); [reflexivity | left; reflexivity].
  - apply (stop_signal_read_at_loop_head_only allocator.vote_function
             scenario.answer_sent_for_ever scenario.waiting_thread);
      [reflexivity | intros k; split; reflexivity].
Defined.

(** * Further properties *)

Import observe_more.

(** ** Provisioning *)

Lemma get_chromedriver_link_outcome (h : host) (v : string) :
  match get_chromedriver_link h v with
  | Ok _ => True
  | Raise e => is_Exception e = true
  | Pending => False
  end.
Proof.
  unfold get_chromedriver_link.
  destruct (index_reachable h); [| reflexivity].
  destruct (builds h !! version_without_patch v) as [ds |]; [| reflexivity].
  apply first_for_platform_outcome.
Qed.

Lemma should_download_returns (h : host) (directory v : string) (b : bool) :
  should_download h directory (Some v) = Ok b ->
  exists remote local,
    get_chromedriver_size h v = Ok remote
    /\ fs h !! get_executable_path h directory v = Some local
    /\ b = negb (remote =? local).
Proof.
  unfold should_download. simpl.
  destruct (get_chromedriver_size h v) as [remote | e |]; simpl; try discriminate.
  unfold getsize.
  destruct (fs h !! get_executable_path h directory v) as [local |]; simpl; try discriminate.
  intros [= <-]. eauto.
Qed.

(** [should_download] with no version is [should_download] with the
    version of the installed Chrome. *)
Lemma should_download_default_version (h : host) (directory v : string) :
  chrome h = Some v ->
  should_download h directory None = should_download h directory (Some v).
Proof. intros Hv. unfold should_download, get_chrome_version. rewrite Hv. reflexivity. Qed.

(** X1. [install] cannot fill a cache that lacks the executable: it asks
    [should_download] before downloading, which raises on the missing
    file, so [install] raises too, downloads nothing and leaves the files
    as they are, with [re_download] or without. *)
Theorem install_raises_without_executable (h : host) (directory : string) (re_download : bool) :
  executable_missing h directory None ->
  exists e, install h directory re_download = (Raise e, [], h) /\ is_Exception e = true.
Proof.
  intros Hmiss. unfold install, get_chrome_version.
  destruct (chrome h) as [v |] eqn:Hv; [| eauto].
  pose proof (get_chromedriver_link_outcome h v) as Hlink.
  destruct (get_chromedriver_link h v) as [link | e |]; [| eauto | contradiction].
  destruct (should_download_missing h directory (Some v)) as (e & -> & He).
  - intros v' Hv'. simpl in Hv'. subst v'. apply Hmiss. exact Hv.
  - eauto.
Qed.

Lemma install_raises_without_executable_witness :
  exists e, install scenario.host_fresh ".chromedriver" true = (Raise e, [], scenario.host_fresh)
            /\ is_Exception e = true.
Proof.
  apply install_raises_without_executable.
  intros v Hv. simpl in Hv. injection Hv as <-. reflexivity.
Defined.

(** X2. When [install] returns, the path it returns is the one of the
    executable for the installed Chrome and that file exists; and it
    either did nothing at all or downloaded the one archive the index
    lists for that version. *)
Theorem install_returns_existing_executable (h h' : host) (directory : string)
    (re_download : bool) (v p : string) (ev : list event) :
  install h directory re_download = (Ok (v, p), ev, h') ->
  chrome h = Some v
  /\ p = get_executable_path h directory v
  /\ is_Some (fs h' !! p)
  /\ ((ev = [] /\ h' = h)
      \/ exists url, ev = [Download url] /\ get_chromedriver_link h v = Ok url).
Proof.
  unfold install, get_chrome_version.
  destruct (chrome h) as [v0 |]; [| discriminate].
  destruct (get_chromedriver_link h v0) as [link | e |] eqn:Hlink; try discriminate.
  destruct (should_download h directory (Some v0)) as [needed | e |] eqn:Hsd; try discriminate.
  apply should_download_returns in Hsd as (remote & local & _ & Hfile & _).
  unfold get_executable_path in *.
  destruct (negb needed && negb re_download).
  - intros [= <- <- <- <-]. split; [reflexivity |]. split; [reflexivity |].
    split; [rewrite Hfile; eauto |]. left; auto.
  - destruct (payload h !! link) as [n |]; [| discriminate].
    intros [= <- <- <- <-]. split; [reflexivity |]. split; [reflexivity |]. simpl.
    split; [rewrite lookup_insert_eq; eauto |]. right. eauto.
Qed.

Lemma install_returns_existing_executable_witness :
  chrome scenario.host_ready = Some "120.0.6099.109"
  /\ ".chromedriver/120.0.6099.109"
     = get_executable_path scenario.host_ready ".chromedriver" "120.0.6099.109"
  /\ is_Some (fs (snd (install scenario.host_ready ".chromedriver" true))
              !! ".chromedriver/120.0.6099.109")
  /\ (([Download scenario.zip_url] = [] /\
       snd (install scenario.host_ready ".chromedriver" true) = scenario.host_ready)
      \/ exists url, [Download scenario.zip_url] = [Download url]
                     /\ get_chromedriver_link scenario.host_ready "120.0.6099.109" = Ok url).
Proof.
  apply (install_returns_existing_executable scenario.host_ready _ ".chromedriver" true).
  reflexivity.
Defined.

(** X3. In [BotManager.__init__] the message "Downloading chromedriver."
    is logged exactly when [install] goes on to attempt a download, and
    at most one download is attempted. *)
Theorem init_announces_exactly_the_downloads (h : host) (lobby_id bot_count : Z)
    (headless do_not_optimize re_download : bool) :
  let ev := snd (fst (manager.init h lobby_id bot_count headless do_not_optimize re_download)) in
  (In (Log INFO "Downloading chromedriver.") ev <-> downloads ev <> [])
  /\ (length (downloads ev) <= 1)%nat.
Proof.
  cbv zeta. unfold manager.init.
  destruct (should_download h ".chromedriver" None) as [needed | e |] eqn:Hsd.
  - assert (exists v, chrome h = Some v) as [v Hv].
    { unfold should_download, get_chrome_version in Hsd.
      destruct (chrome h) as [v |]; [eauto | discriminate]. }
    rewrite (should_download_default_version h _ v Hv) in Hsd.
    pose proof Hsd as Hret. apply should_download_returns in Hret as (remote & local & Hsize & _).
    unfold install, get_chrome_version. rewrite Hv.
    unfold get_chromedriver_size in Hsize.
    destruct (get_chromedriver_link h v) as [link | e |]; try discriminate.
    rewrite Hsd.
    destruct needed, re_download; simpl; try destruct (payload h !! link); simpl;
      (split; [| simpl; lia]); split; intros Hx;
      first [discriminate | left; reflexivity | exfalso; apply Hx; reflexivity | destruct Hx].
  - destruct (is_Exception e); simpl; (split; [| simpl; lia]); split; intros Hx;
      first [exfalso; apply Hx; reflexivity
            | destruct Hx as [Hc | []]; discriminate | destruct Hx].
  - simpl. split; [| lia]. split; [intros [] | congruence].
Qed.

Lemma has_dot_before_dot (build patch : string) :
  has_dot (build +:+ "." +:+ patch) = true.
Proof.
  induction build as [| c build IH]; [reflexivity |].
  change (has_dot (String c (build +:+ "." +:+ patch)) = true). simpl.
  destruct (Ascii.eqb c "."); [reflexivity | exact IH].
Qed.

Lemma version_without_patch_of_join (build patch : string) :
  has_dot patch = false ->
  version_without_patch (build +:+ "." +:+ patch) = build.
Proof.
  intros Hpatch. induction build as [| c build IH].
  - change (version_without_patch (String "." patch) = EmptyString).
    simpl. rewrite Hpatch. reflexivity.
  - change (version_without_patch (String c (build +:+ "." +:+ patch)) = String c build).
    simpl. rewrite has_dot_before_dot, IH. reflexivity.
Qed.

(** X4. [version_without_patch] undoes the last [+ "." + patch]: it gives
    back what precedes the last dot. Hence two Chrome versions that differ
    in their patch number only are served the same driver link and the
    same driver size. *)
Theorem chromedriver_link_ignores_patch (h : host) (build patch patch' : string) :
  has_dot patch = false ->
  has_dot patch' = false ->
  version_without_patch (build +:+ "." +:+ patch) = build
  /\ get_chromedriver_link h (build +:+ "." +:+ patch)
     = get_chromedriver_link h (build +:+ "." +:+ patch')
  /\ get_chromedriver_size h (build +:+ "." +:+ patch)
     = get_chromedriver_size h (build +:+ "." +:+ patch').
Proof.
  intros Hp Hp'. split; [exact (version_without_patch_of_join _ _ Hp) |].
  unfold get_chromedriver_size, get_chromedriver_link.
  rewrite !version_without_patch_of_join by assumption. split; reflexivity.
Qed.

Lemma chromedriver_link_ignores_patch_witness :
  version_without_patch "120.0.6099.109" = "120.0.6099"
  /\ get_chromedriver_link scenario.host_ready "120.0.6099.109"
     = get_chromedriver_link scenario.host_ready "120.0.6099.71"
  /\ get_chromedriver_size scenario.host_ready "120.0.6099.109"
     = get_chromedriver_size scenario.host_ready "120.0.6099.71".
Proof.
  apply (chromedriver_link_ignores_patch scenario.host_ready "120.0.6099" "109" "71");
    reflexivity.
Defined.

Lemma first_for_platform_sound (h : host) (downloads : list (string * string)) (url : string) :
  first_for_platform h downloads = Ok url ->
  exists p before after,
    platform h = Some p
    /\ downloads = before ++ (p, url) :: after
    /\ forall item, item ∈ before -> fst item <> p.
Proof.
  induction downloads as [| [item_platform item_url] rest IH]; simpl; [discriminate |].
  unfold get_platform. destruct (platform h) as [p |] eqn:Hp; simpl; [| discriminate].
  destruct (String.eqb_spec item_platform p) as [-> | Hne].
  - intros [= ->]. exists p, [], rest. split; [reflexivity |]. split; [reflexivity |].
    intros item Hin. inversion Hin.
  - intros Hrest. destruct (IH Hrest) as (p' & before & after & Hp' & -> & Hbefore).
    injection Hp' as <-.
    exists p, ((item_platform, item_url) :: before), after.
    split; [reflexivity |]. split; [reflexivity |].
    intros item Hin. apply elem_of_cons in Hin as [-> | Hin]; [exact Hne | auto].
Qed.

(** X5. A link returned by [get_chromedriver_link] is the URL of the
    first download that the index lists, under the build of the version
    (its patch number dropped), for the platform of the host. *)
Theorem get_chromedriver_link_sound (h : host) (version url : string) :
  get_chromedriver_link h version = Ok url ->
  exists p downloads before after,
    platform h = Some p
    /\ builds h !! version_without_patch version = Some downloads
    /\ downloads = before ++ (p, url) :: after
    /\ forall item, item ∈ before -> fst item <> p.
Proof.
  unfold get_chromedriver_link.
  destruct (index_reachable h); [| discriminate].
  destruct (builds h !! version_without_patch version) as [downloads |]; [| discriminate].
  intros Hfirst.
  destruct (first_for_platform_sound _ _ _ Hfirst) as (p & before & after & Hp & Hd & Hb).
  exists p, downloads, before, after. auto.
Qed.

Lemma get_chromedriver_link_sound_witness :
  exists p downloads before after,
    platform scenario.host_ready = Some p
    /\ builds scenario.host_ready !! version_without_patch "120.0.6099.109" = Some downloads
    /\ downloads = before ++ (p, scenario.zip_url) :: after
    /\ forall item, item ∈ before -> fst item <> p.
Proof.
  apply (get_chromedriver_link_sound scenario.host_ready "120.0.6099.109" scenario.zip_url).
  reflexivity.
Defined.

(** X6. [get_platform] answers with one of its five literals or raises.
    On macOS it tests the machine name for truth, not for being an ARM
    name: it answers "mac-x64" only when [platform.machine()] is the
    empty string, so an Intel Mac (machine "x86_64") is reported as
    "mac-arm64". On Windows the answer is "win32" exactly for 4-byte
    pointers. *)
Theorem get_platform_cases (sys_platform : string) (pointer_size : Z) (machine : string) :
  (forall p, sysinfo.get_platform sys_platform pointer_size machine = Ok p ->
             p ∈ ["win32"; "win64"; "mac-arm64"; "mac-x64"; "linux64"])
  /\ (sysinfo.get_platform "darwin" pointer_size machine = Ok "mac-x64" <-> machine = EmptyString)
  /\ sysinfo.get_platform "darwin" pointer_size "x86_64" = Ok "mac-arm64"
  /\ (sysinfo.get_platform "win32" pointer_size machine = Ok "win32" <-> pointer_size = 4)
  /\ ((forall p, sysinfo.get_platform sys_platform pointer_size machine <> Ok p) <->
      sys_platform ∉ ["win32"; "darwin"; "linux"]).
Proof.
  assert (Hin : forall (x : string) (l : list string), In x l -> x ∈ l)
    by (intros x l; apply list_elem_of_In).
  split; [| split; [| split; [| split]]].
  - intros p. unfold sysinfo.get_platform.
    destruct (String.eqb sys_platform "win32").
    { destruct (pointer_size * 8 =? 32); intros [= <-]; apply Hin; simpl; tauto. }
    destruct (String.eqb sys_platform "darwin").
    { destruct (sysinfo.truthy machine); intros [= <-]; apply Hin; simpl; tauto. }
    destruct (String.eqb sys_platform "linux"); [| discriminate].
    intros [= <-]. apply Hin; simpl; tauto.
  - unfold sysinfo.get_platform. simpl. destruct machine; simpl; split; congruence.
  - reflexivity.
  - unfold sysinfo.get_platform. simpl.
    destruct (Z.eqb_spec (pointer_size * 8) 32); split; intros Hx;
      first [lia | reflexivity | discriminate].
  - unfold sysinfo.get_platform.
    destruct (String.eqb_spec sys_platform "win32") as [-> | H1].
    { split; [| intros Hn; exfalso; apply Hn, Hin; simpl; tauto]. intros Hno. exfalso.
      destruct (pointer_size * 8 =? 32); eapply Hno; reflexivity. }
    destruct (String.eqb_spec sys_platform "darwin") as [-> | H2].
    { split; [| intros Hn; exfalso; apply Hn, Hin; simpl; tauto]. intros Hno. exfalso.
      destruct (sysinfo.truthy machine); eapply Hno; reflexivity. }
    destruct (String.eqb_spec sys_platform "linux") as [-> | H3].
    { split; [| intros Hn; exfalso; apply Hn, Hin; simpl; tauto]. intros Hno. exfalso.
      eapply Hno; reflexivity. }
    split; [| discriminate]. intros _ Hmem. apply list_elem_of_In in Hmem. simpl in Hmem.
    destruct Hmem as [<- | [<- | [<- | []]]]; congruence.
Qed.

(** X7. [create_portable_chrome_directory] creates the directory when the
    name is free and reports [True]; called again it reports [False] for
    the same path and changes nothing. It never touches the files, and
    when a regular file holds the name it raises [FileExistsError] and
    leaves the disk as it was. *)
Theorem create_portable_chrome_directory_twice (d : sysinfo.disk) :
  let '(r, d') := sysinfo.create_portable_chrome_directory d in
  sysinfo.files d' = sysinfo.files d
  /\ (forall path created,
        r = inr (path, created) ->
        sysinfo.isdir d' ".portable_chrome" = true
        /\ (created = true <-> ".portable_chrome" ∉ sysinfo.directories d)
        /\ sysinfo.create_portable_chrome_directory d' = (inr (path, false), d'))
  /\ (".portable_chrome" ∉ sysinfo.directories d ->
      ".portable_chrome" ∈ sysinfo.files d ->
      r = inl (sysinfo.FileExistsError ".portable_chrome") /\ d' = d).
Proof.
  unfold sysinfo.create_portable_chrome_directory, sysinfo.isdir, sysinfo.mkdir.
  destruct (bool_decide (".portable_chrome" ∈ sysinfo.directories d)) eqn:Hdir; simpl.
  - apply bool_decide_eq_true in Hdir.
    split; [reflexivity |]. split.
    + intros path created [= <- <-]. rewrite bool_decide_eq_true_2 by exact Hdir.
      split; [reflexivity |]. split; [split; [discriminate | contradiction] | reflexivity].
    + intros Hno. contradiction.
  - apply bool_decide_eq_false in Hdir.
    destruct (bool_decide (".portable_chrome" ∈ sysinfo.files d)) eqn:Hfile; simpl.
    + split; [reflexivity |]. split; [discriminate | auto].
    + apply bool_decide_eq_false in Hfile.
      split; [reflexivity |]. split.
      * intros path created [= <- <-].
        assert (Hin : ".portable_chrome" ∈ {[".portable_chrome"]} ∪ sysinfo.directories d)
          by (apply elem_of_union; left; apply elem_of_singleton; reflexivity).
        rewrite !bool_decide_eq_true_2 by exact Hin.
        split; [reflexivity |]. split; [split; auto | reflexivity].
      * intros _ Hin. contradiction.
Qed.

(** ** Logging *)

Lemma format_message_value (r : log_stuff.LogRecord) :
  log_stuff.format_message r
  = Ok (default (log_stuff.ESC +:+ "[32;1m") (log_stuff.COLORS !! log_stuff.record_levelno r)
        +:+ log_stuff.format r +:+ log_stuff.RESET_COLOR).
Proof. reflexivity. Qed.

(** X8. [format_message] never raises; a record whose level is none of
    the five standard ones is coloured like an [INFO] record (green), and
    every message ends with the reset sequence after the formatted text. *)
Theorem format_message_falls_back_to_info (r : log_stuff.LogRecord) :
  (exists color,
      log_stuff.format_message r
      = Ok (color +:+ log_stuff.format r +:+ log_stuff.RESET_COLOR))
  /\ (log_stuff.record_levelno r ∉ [10; 20; 30; 40; 50] ->
      log_stuff.format_message r
      = Ok (log_stuff.ESC +:+ "[32;1m" +:+ log_stuff.format r +:+ log_stuff.RESET_COLOR)
      /\ log_stuff.COLORS !! 20 = Some (log_stuff.ESC +:+ "[32;1m")).
Proof.
  rewrite format_message_value. split; [eauto |].
  intros Hunknown. split; [| reflexivity].
  assert (Hne : forall k, In k [10; 20; 30; 40; 50] -> k <> log_stuff.record_levelno r).
  { intros k Hk ->. apply Hunknown, list_elem_of_In, Hk. }
  unfold log_stuff.COLORS.
  rewrite !lookup_insert_ne, lookup_singleton_ne by (apply Hne; simpl; tauto).
  reflexivity.
Qed.

Lemma format_message_falls_back_to_info_witness :
  log_stuff.format_message
    {| log_stuff.record_levelno := 25; log_stuff.asctime := "12:00:00";
       log_stuff.message := "half past info" |}
  = Ok (log_stuff.ESC +:+ "[32;1m" +:+ "[12:00:00] Level 25 half past info"
        +:+ log_stuff.RESET_COLOR).
Proof.
  apply (format_message_falls_back_to_info
           {| log_stuff.record_levelno := 25; log_stuff.asctime := "12:00:00";
              log_stuff.message := "half past info" |}).
  intros Hin. apply list_elem_of_In in Hin. simpl in Hin.
  repeat (destruct Hin as [Hin | Hin]; [discriminate |]). exact Hin.
Defined.

Lemma emit_times_open (n : nat) (r : log_stuff.LogRecord) (msg : string) :
  log_stuff.format_message r = Ok msg ->
  forall s,
    log_stuff.closed s = false ->
    log_stuff.closed (log_stuff.emit_times n r s) = false
    /\ log_stuff.written (log_stuff.emit_times n r s)
       = log_stuff.written s ++ replicate n (msg +:+ String "010" EmptyString).
Proof.
  intros Hmsg. induction n as [| n IH]; intros s Hopen; simpl.
  - rewrite app_nil_r. auto.
  - destruct (IH (log_stuff.emit r s)) as [Hc Hw].
    + unfold log_stuff.emit. rewrite Hmsg, Hopen. reflexivity.
    + split; [exact Hc |]. rewrite Hw. unfold log_stuff.emit. rewrite Hmsg, Hopen. simpl.
      rewrite <- app_assoc. reflexivity.
Qed.

Lemma getLogger_after_call (name : string) (lvl : Z) (loggers : gmap string log_stuff.Logger) :
  log_stuff.getLogger (log_stuff.create_colored_logger name lvl loggers) name
  = {| log_stuff.level := lvl;
       log_stuff.handlers := S (log_stuff.handlers (log_stuff.getLogger loggers name)) |}.
Proof.
  unfold log_stuff.create_colored_logger.
  generalize (log_stuff.getLogger loggers name) as l. intros l.
  unfold log_stuff.getLogger. rewrite lookup_insert_eq. reflexivity.
Qed.

Lemma getLogger_after_calls (n : nat) (name : string) (lvl : Z)
    (loggers : gmap string log_stuff.Logger) :
  log_stuff.getLogger (Nat.iter (S n) (log_stuff.create_colored_logger name lvl) loggers) name
  = {| log_stuff.level := lvl;
       log_stuff.handlers := (S n + log_stuff.handlers (log_stuff.getLogger loggers name))%nat |}.
Proof.
  induction n as [| n IH].
  - apply getLogger_after_call.
  - change (Nat.iter (S (S n)) (log_stuff.create_colored_logger name lvl) loggers)
      with (log_stuff.create_colored_logger name lvl
              (Nat.iter (S n) (log_stuff.create_colored_logger name lvl) loggers)).
    rewrite getLogger_after_call, IH. reflexivity.
Qed.

(** X9. Every call of [create_colored_logger] with the same name attaches
    one more handler to the same logger: after [k] calls a record that
    passes the level is written [k] times to the stream. *)
Theorem create_colored_logger_stacks_handlers (n : nat) (name : string) (lvl : Z)
    (r : log_stuff.LogRecord) (msg : string) (s : log_stuff.stream) :
  log_stuff.closed s = false ->
  log_stuff.format_message r = Ok msg ->
  0 < log_stuff.record_levelno r ->
  (if lvl =? 0 then 30 else lvl) <= log_stuff.record_levelno r ->
  log_stuff.written
    (log_stuff.log (Nat.iter (S n) (log_stuff.create_colored_logger name lvl) ∅) name r s)
  = log_stuff.written s ++ replicate (S n) (msg +:+ String "010" EmptyString).
Proof.
  intros Hopen Hmsg Hpos Hlevel. unfold log_stuff.log.
  destruct (Z.leb_spec (log_stuff.record_levelno r) 0); [lia |].
  rewrite getLogger_after_calls. unfold log_stuff.effective_level. cbn [log_stuff.level log_stuff.handlers].
  destruct (Z.leb_spec (if lvl =? 0 then 30 else lvl) (log_stuff.record_levelno r)); [| lia].
  unfold log_stuff.getLogger. rewrite lookup_empty. simpl default.
  cbn [log_stuff.handlers]. rewrite !Nat.add_0_r. cbv iota.
  apply (emit_times_open (S n) r msg Hmsg s Hopen).
Qed.

Lemma create_colored_logger_stacks_handlers_witness :
  log_stuff.written
    (log_stuff.log (Nat.iter 2 (log_stuff.create_colored_logger "bot_manager" 20) ∅)
       "bot_manager"
       {| log_stuff.record_levelno := 40; log_stuff.asctime := "12:00:00";
          log_stuff.message := "oops" |}
       {| log_stuff.closed := false; log_stuff.written := [] |})
  = [] ++ replicate 2
      ((log_stuff.ESC +:+ "[31;1m" +:+ "[12:00:00] ERROR oops" +:+ log_stuff.RESET_COLOR)
       +:+ String "010" EmptyString).
Proof.
  apply (create_colored_logger_stacks_handlers 1 "bot_manager" 20
           {| log_stuff.record_levelno := 40; log_stuff.asctime := "12:00:00";
              log_stuff.message := "oops" |}
           (log_stuff.ESC +:+ "[31;1m" +:+ "[12:00:00] ERROR oops" +:+ log_stuff.RESET_COLOR)
           {| log_stuff.closed := false; log_stuff.written := [] |});
    [reflexivity | reflexivity | simpl; lia | simpl; lia].
Defined.

(** X10. A logger made by [create_colored_logger] drops the records below
    its level; a level of 0 leaves the level unset, so the root's
    [WARNING] applies and [INFO] records are dropped. A logger of another
    name keeps the unset level and drops the records below [WARNING]. *)
Theorem create_colored_logger_threshold (name other : string) (lvl : Z)
    (r : log_stuff.LogRecord) (s : log_stuff.stream) :
  let loggers := log_stuff.create_colored_logger name lvl ∅ in
  (log_stuff.record_levelno r < (if lvl =? 0 then 30 else lvl) ->
   log_stuff.log loggers name r s = s)
  /\ (other <> name -> log_stuff.record_levelno r < 30 ->
      log_stuff.log loggers other r s = s).
Proof.
  cbv zeta. split.
  - intros Hlow. unfold log_stuff.log.
    rewrite getLogger_after_call.
    unfold log_stuff.effective_level. cbn [log_stuff.level].
    destruct (log_stuff.record_levelno r <=? 0); [reflexivity |].
    destruct (Z.leb_spec (if lvl =? 0 then 30 else lvl) (log_stuff.record_levelno r));
      [lia | reflexivity].
  - intros Hother Hlow. unfold log_stuff.log, log_stuff.getLogger.
    unfold log_stuff.create_colored_logger.
    rewrite lookup_insert_ne, lookup_empty by congruence.
    simpl default. unfold log_stuff.effective_level. cbn [log_stuff.level log_stuff.handlers].
    destruct (log_stuff.record_levelno r <=? 0); [reflexivity |].
    change (0 =? 0) with true. cbv iota.
    destruct (Z.leb_spec 30 (log_stuff.record_levelno r)); [lia | reflexivity].
Qed.

Lemma create_colored_logger_threshold_witness :
  log_stuff.log (log_stuff.create_colored_logger "bot_manager" 0 ∅) "bot_manager"
    {| log_stuff.record_levelno := 20; log_stuff.asctime := "12:00:00";
       log_stuff.message := "dropped" |}
    {| log_stuff.closed := false; log_stuff.written := [] |}
  = {| log_stuff.closed := false; log_stuff.written := [] |}.
Proof.
  destruct (create_colored_logger_threshold "bot_manager" "other" 0
              {| log_stuff.record_levelno := 20; log_stuff.asctime := "12:00:00";
                 log_stuff.message := "dropped" |}
              {| log_stuff.closed := false; log_stuff.written := [] |}) as [Hlow _].
  apply Hlow. simpl. lia.
Defined.

Lemma print_lines (a : entry.args) (clock : nat -> string) (ev : list event) :
  forall k s,
    log_stuff.closed s = false ->
    log_stuff.closed (console.print (console.manager_logger a) clock k ev s) = false
    /\ length (log_stuff.written (console.print (console.manager_logger a) clock k ev s))
       = (length (log_stuff.written s)
          + length (console.messages_from (if entry.arg_verbose a then 10%Z else 20%Z) ev))%nat.
Proof.
  assert (Hlog : forall r s,
             0 < log_stuff.record_levelno r ->
             log_stuff.closed s = false ->
             log_stuff.closed (log_stuff.log (console.manager_logger a) "bot_manager" r s) = false
             /\ length (log_stuff.written
                          (log_stuff.log (console.manager_logger a) "bot_manager" r s))
                = (length (log_stuff.written s)
                   + if ((if entry.arg_verbose a then 10 else 20)
                         <=? log_stuff.record_levelno r)%Z
                     then 1 else 0)%nat).
  { intros r s Hpos Hopen. unfold log_stuff.log, console.manager_logger.
    destruct (Z.leb_spec (log_stuff.record_levelno r) 0); [lia |].
    rewrite getLogger_after_call.
    unfold log_stuff.effective_level. cbn [log_stuff.level log_stuff.handlers].
    unfold log_stuff.getLogger. rewrite lookup_empty. simpl default.
    cbn [log_stuff.handlers]. cbv iota.
    assert ((if (if entry.arg_verbose a then log_stuff.levelno DEBUG
                 else log_stuff.levelno INFO) =? 0 then 30
             else if entry.arg_verbose a then log_stuff.levelno DEBUG
                  else log_stuff.levelno INFO)
            = if entry.arg_verbose a then 10 else 20) as ->
        by (destruct (entry.arg_verbose a); reflexivity).
    destruct (_ <=? _); [| rewrite Nat.add_0_r; auto].
    destruct (emit_times_open 1 r _ (format_message_value r) s Hopen) as [Hc Hw].
    split; [exact Hc |]. rewrite Hw, length_app. reflexivity. }
  induction ev as [| e ev IH]; intros k s Hopen; simpl.
  - rewrite Nat.add_0_r. auto.
  - destruct e; try (apply IH; exact Hopen).
    destruct (Hlog {| log_stuff.record_levelno := log_stuff.levelno level;
                      log_stuff.asctime := clock k; log_stuff.message := msg |} s
                ltac:(destruct level; simpl; lia) Hopen)
      as [Hc Hw].
    destruct (IH (S k) _ Hc) as [Hc' Hw']. split; [exact Hc' |].
    rewrite Hw', Hw. cbn [log_stuff.record_levelno].
    unfold console.messages_from. simpl omap.
    destruct (_ <=? _); simpl; lia.
Qed.

(** X11. On the console of [main], one line is written per logging call
    of the run at or above [INFO]; [--verbose] adds the [DEBUG] calls and
    nothing else. *)
Theorem verbose_adds_the_debug_lines (a : entry.args) (clock : nat -> string)
    (ev : list event) (s : log_stuff.stream) :
  log_stuff.closed s = false ->
  length (log_stuff.written (console.print (console.manager_logger a) clock 0 ev s))
  = (length (log_stuff.written s)
     + length (console.messages_from (if entry.arg_verbose a then 10%Z else 20%Z) ev))%nat.
Proof. intros Hopen. apply (print_lines a clock ev 0%nat s Hopen). Qed.

Lemma verbose_adds_the_debug_lines_witness :
  length (log_stuff.written
            (console.print (console.manager_logger (scenario.command_line 3))
               (fun _ => "12:00:00") 0
               (snd (entry.main scenario.host_ready scenario.all_join [1; 2; 3]
                       (scenario.command_line 3)))
               {| log_stuff.closed := false; log_stuff.written := [] |}))
  = (0 + 4)%nat.
Proof.
  apply (verbose_adds_the_debug_lines (scenario.command_line 3) (fun _ => "12:00:00")
           (snd (entry.main scenario.host_ready scenario.all_join [1; 2; 3]
                   (scenario.command_line 3)))
           {| log_stuff.closed := false; log_stuff.written := [] |} eq_refl).
Defined.

(** ** The options of a driver *)

Lemma not_an_optimization_flag (f : string) :
  bool_decide (f ∈ driver_options.optimization_flags) = false ->
  f ∉ driver_options.optimization_flags.
Proof. apply bool_decide_eq_false. Qed.

Lemma chrome_options_shape (sys_platform : string) (xdg_session_type : option string)
    (do_not_optimize headless : bool) :
  driver_options.chrome_options sys_platform xdg_session_type do_not_optimize headless
  = (if do_not_optimize then []
     else driver_options.optimization_flags
            ++ (if String.eqb sys_platform "linux"
                   && driver_options.env_is xdg_session_type "wayland"
                then ["--ozone-platform=wayland"] else [])
            ++ (if String.eqb sys_platform "linux"
                   && driver_options.env_is xdg_session_type "x11"
                then ["--ozone-platform=x11"] else []))
    ++ (if headless then ["--headless=new"] else []).
Proof.
  unfold driver_options.chrome_options.
  destruct (String.eqb sys_platform "linux"),
    (driver_options.env_is xdg_session_type "wayland"),
    (driver_options.env_is xdg_session_type "x11"), do_not_optimize, headless;
    simpl andb; cbv iota; rewrite ?app_nil_r, <- ?app_assoc; reflexivity.
Qed.

(** X12. The arguments handed to Chrome: "--headless=new" is there
    exactly when [headless] is set; with [do_not_optimize] nothing else
    is; without it all the optimisation flags are, "--no-sandbox"
    included, and the Ozone flag for Wayland (resp. X11) is added exactly
    on Linux under a Wayland (resp. X11) session. *)
Theorem chrome_options_cases (sys_platform : string) (xdg_session_type : option string)
    (do_not_optimize headless : bool) :
  let options :=
    driver_options.chrome_options sys_platform xdg_session_type do_not_optimize headless in
  ("--headless=new" ∈ options <-> headless = true)
  /\ (do_not_optimize = true -> options = if headless then ["--headless=new"] else [])
  /\ (do_not_optimize = false ->
      (forall f, f ∈ driver_options.optimization_flags -> f ∈ options)
      /\ "--no-sandbox" ∈ options)
  /\ ("--ozone-platform=wayland" ∈ options <->
      do_not_optimize = false /\ sys_platform = "linux" /\ xdg_session_type = Some "wayland")
  /\ ("--ozone-platform=x11" ∈ options <->
      do_not_optimize = false /\ sys_platform = "linux" /\ xdg_session_type = Some "x11").
Proof.
  cbv zeta.
  pose proof (not_an_optimization_flag "--headless=new" eq_refl) as Hh.
  pose proof (not_an_optimization_flag "--ozone-platform=wayland" eq_refl) as Hw.
  pose proof (not_an_optimization_flag "--ozone-platform=x11" eq_refl) as Hx.
  assert (Hsandbox : "--no-sandbox" ∈ driver_options.optimization_flags)
    by (apply list_elem_of_In; simpl; tauto).
  assert (Henv : forall v, driver_options.env_is xdg_session_type v = true
                           <-> xdg_session_type = Some v).
  { intros v. unfold driver_options.env_is. destruct xdg_session_type as [x |].
    - rewrite String.eqb_eq. split; congruence.
    - split; discriminate. }
  rewrite chrome_options_shape.
  destruct (String.eqb_spec sys_platform "linux") as [-> | Hsp];
    destruct (driver_options.env_is xdg_session_type "wayland") eqn:Ew;
    destruct (driver_options.env_is xdg_session_type "x11") eqn:Ex;
    try (apply Henv in Ew); try (apply Henv in Ex);
    try (rewrite Ew in Ex; discriminate);
    try (assert (xdg_session_type <> Some "wayland")
           by (intros Hc; apply Henv in Hc; congruence));
    try (assert (xdg_session_type <> Some "x11")
           by (intros Hc; apply Henv in Hc; congruence));
    destruct do_not_optimize, headless; simpl andb; cbv iota;
    rewrite ?app_nil_r;
    (split; [| split; [| split; [| split]]]);
    rewrite ?elem_of_app, ?list_elem_of_singleton, ?elem_of_nil;
    try reflexivity;
    try (intros Hd; first [discriminate | split; [| tauto]; intros f Hf;
                           rewrite ?elem_of_app; tauto]);
    intuition (try congruence; try discriminate).
Qed.

(** X13. [main] builds the manager from four arguments only, so
    [--no-optimize] changes nothing: the run is the same with and without
    it, the manager that [__init__] returns has [do_not_optimize] unset,
    and its drivers are started with the optimisation flags. *)
Theorem no_optimize_flag_is_ignored (h : host) (w : manager.world) (draws : list Z)
    (a : entry.args) (flag : bool) :
  entry.main h w draws (console.with_no_optimize a flag) = entry.main h w draws a
  /\ forall m ev h',
      manager.init h (entry.arg_lobby_id a) (entry.arg_bot_count a) (entry.arg_headless a)
                   false false = (Ok m, ev, h') ->
      manager.do_not_optimize m = false
      /\ manager.headless m = entry.arg_headless a
      /\ forall sys_platform xdg,
          "--no-sandbox" ∈ driver_options.chrome_options sys_platform xdg
                             (manager.do_not_optimize m) (manager.headless m).
Proof.
  split; [reflexivity |].
  intros m ev h' Hinit.
  assert (Hflags : manager.do_not_optimize m = false
                   /\ manager.headless m = entry.arg_headless a).
  { revert Hinit. unfold manager.init.
    destruct (should_download h ".chromedriver" None) as [needed | e |].
    - destruct (install h ".chromedriver" false) as [[[[v p] | e |] ev1] h1].
      + intros [= <- <- <-]. auto.
      + destruct (is_Exception e); [| discriminate]. intros [= <- <- <-]. auto.
      + discriminate.
    - destruct (is_Exception e); [| discriminate]. intros [= <- <- <-]. auto.
    - discriminate. }
  destruct Hflags as [Hdno Hhl]. split; [exact Hdno |]. split; [exact Hhl |].
  intros sys_platform xdg. rewrite Hdno, chrome_options_shape.
  apply elem_of_app. left. apply elem_of_app. left.
  apply list_elem_of_In. simpl. tauto.
Qed.

Lemma no_optimize_flag_is_ignored_witness :
  entry.main scenario.host_ready scenario.all_join [1; 2; 3]
    (console.with_no_optimize (scenario.command_line 3) true)
  = entry.main scenario.host_ready scenario.all_join [1; 2; 3] (scenario.command_line 3)
  /\ "--no-sandbox" ∈ driver_options.chrome_options "linux" (Some "wayland")
                        (manager.do_not_optimize (scenario.provisioned 123456789 3))
                        (manager.headless (scenario.provisioned 123456789 3)).
Proof.
  destruct (no_optimize_flag_is_ignored scenario.host_ready scenario.all_join [1; 2; 3]
              (scenario.command_line 3) true) as [Hsame Hflags].
  split; [exact Hsame |].
  destruct (Hflags (scenario.provisioned 123456789 3) [] scenario.host_ready eq_refl)
    as (_ & _ & Hopts).
  apply Hopts.
Defined.

(** ** More on [run] *)

Lemma threads_joined_app (ev ev' : list event) :
  threads_joined (ev ++ ev') = threads_joined ev ++ threads_joined ev'.
Proof. apply omap_app. Qed.

Lemma threads_joined_cons (e : event) (ev : list event) :
  threads_joined (e :: ev)
  = match e with ThreadJoin i => i :: threads_joined ev | _ => threads_joined ev end.
Proof. destruct e; reflexivity. Qed.

(** X14. When every [prepare] returns [False] (and no [quit()] raises),
    [run] logs the total failure, starts no voting thread, closes the
    session of every bot once and returns. *)
Theorem run_total_failure (w : manager.world) (draws : list Z) (m : manager.BotManager) :
  1 <= manager.bot_count m ->
  nobody_joined w draws m ->
  (forall i, manager.driver_quit w i = None) ->
  exists ev m',
    manager.run w draws m = (Ok tt, ev, m')
    /\ threads_started ev = []
    /\ sessions_closed ev = seq 0 (Z.to_nat (manager.bot_count m))
    /\ In (Log CRITICAL "All bots failed to join the lobby, exiting.") ev.
Proof.
  intros Hcount (created & ev1 & st1 & bs0 & prepared & bs & ev3 & st2 & results
                 & Hcreate & Hgather & Hprep & Hresults & Hany) Hquit.
  unfold manager.run.
  destruct (Z.ltb_spec (manager.bot_count m) 1) as [Hlt | _]; [lia |].
  rewrite Hcreate, Hgather, Hprep, Hresults.
  unfold manager.vote_and_cleanup. rewrite Hany. simpl negb. cbv iota.
  destruct (manager.cleanup w bs) as [r ev] eqn:Hclean.
  pose proof (cleanup_trace _ _ _ _ Hclean) as (Hcs & Hcq & Hok).
  assert (r = Ok tt) as -> by (apply Hok; auto).
  pose proof (create_bots_quiet _ _ _ _ _ _ Hcreate) as [Hq1 Hs1].
  pose proof (prepare_bots_quiet _ _ _ _ _ _ _ Hprep) as (Hq3 & Hs3 & Hd & _).
  pose proof (create_bots_ids _ _ _ _ _ _ _ Hcreate Hgather) as [_ Hdrv].
  eexists _, _. split; [reflexivity |].
  trace_norm. rewrite Hq1, Hs1, Hq3, Hs3, Hcs, (Hcq eq_refl), Hd, Hdrv.
  split; [reflexivity |]. split; [reflexivity |].
  rewrite !in_app_iff. simpl. auto 10.
Qed.

Lemma run_total_failure_witness :
  exists ev m',
    manager.run scenario.nobody_joins [1; 2; 3] (scenario.provisioned 123456789 3)
    = (Ok tt, ev, m')
    /\ threads_started ev = []
    /\ sessions_closed ev = seq 0 (Z.to_nat 3)
    /\ In (Log CRITICAL "All bots failed to join the lobby, exiting.") ev.
Proof.
  apply (run_total_failure scenario.nobody_joins [1; 2; 3] (scenario.provisioned 123456789 3)).
  - simpl. lia.
  - eexists _, _, _, _, _, _, _, _, _.
    split; [vm_compute; reflexivity |]. split; [vm_compute; reflexivity |].
    split; [vm_compute; reflexivity |]. split; [vm_compute; reflexivity |]. reflexivity.
  - reflexivity.
Defined.

(** The joins up to the first bot whose thread has not ended. *)
Lemma join_bots_until (w : manager.world) (before : list bot.Bot) (b : bot.Bot)
    (after : list bot.Bot) :
  (forall x, x ∈ before -> manager.thread_join w (bot.index x) = manager.ThreadEnded) ->
  manager.thread_join w (bot.index b) <> manager.ThreadEnded ->
  exists ev,
    manager.join_bots w (before ++ b :: after) = (manager.thread_join w (bot.index b), ev)
    /\ threads_joined ev = map bot.index before.
Proof.
  intros Hbefore Hb. induction before as [| x before IH]; simpl.
  - destruct (manager.thread_join w (bot.index b)); [contradiction | |]; eauto.
  - rewrite (Hbefore x) by (apply elem_of_cons; auto).
    destruct IH as (ev & -> & Hj).
    { intros y Hy. apply Hbefore, elem_of_cons. auto. }
    eexists. split; [reflexivity |]. simpl. rewrite Hj. reflexivity.
Qed.

Lemma cleanup_joins_nothing (w : manager.world) (bs : list bot.Bot) :
  threads_joined (snd (manager.cleanup w bs)) = [].
Proof.
  induction bs as [| y l IH]; simpl; [reflexivity |].
  destruct (manager.driver_quit w (bot.driver y)); [reflexivity |].
  destruct (manager.cleanup w l) as [r1 ev1]. exact IH.
Qed.

Lemma start_bots_joins_nothing (bs : list bot.Bot) :
  threads_joined (manager.start_bots bs) = [].
Proof. induction bs as [| y l IH]; [reflexivity | exact IH]. Qed.

(** X15. A [KeyboardInterrupt] while [run] waits for the voting threads
    is swallowed: the bots joined so far are exactly those before the
    interrupted [join], "Stopping bots." is logged, every session is
    closed and [run] returns normally. *)
Theorem interrupt_while_voting_still_tears_down (w : manager.world)
    (before : list bot.Bot) (b : bot.Bot) (after : list bot.Bot) (results : list bool) :
  any results = true ->
  (forall x, x ∈ before -> manager.thread_join w (bot.index x) = manager.ThreadEnded) ->
  manager.thread_join w (bot.index b) = manager.Interrupt ->
  (forall i, manager.driver_quit w i = None) ->
  exists ev,
    manager.vote_and_cleanup w (before ++ b :: after) results = (Ok tt, ev)
    /\ threads_joined ev = map bot.index before
    /\ sessions_closed ev = map bot.driver (before ++ b :: after)
    /\ In (Log INFO "Stopping bots.") ev.
Proof.
  intros Hany Hbefore Hb Hquit.
  destruct (join_bots_until w before b after Hbefore) as (evj & Hjoin & Hj).
  { rewrite Hb. discriminate. }
  rewrite Hb in Hjoin.
  unfold manager.vote_and_cleanup. rewrite Hany, Hjoin. simpl negb. cbv iota.
  destruct (manager.cleanup w (before ++ b :: after)) as [r evc] eqn:Hclean.
  pose proof (cleanup_trace _ _ _ _ Hclean) as (_ & Hcq & Hok).
  assert (r = Ok tt) as -> by (apply Hok; auto).
  eexists. split; [reflexivity |].
  split; [| split].
  - pose proof (cleanup_joins_nothing w (before ++ b :: after)) as Hcj.
    rewrite Hclean in Hcj. simpl in Hcj.
    repeat (progress (rewrite ?threads_joined_app, ?threads_joined_cons; cbv iota beta)).
    rewrite Hj, start_bots_joins_nothing, Hcj.
    destruct (negb (all results)); simpl; rewrite app_nil_r; reflexivity.
  - trace_norm. rewrite (Hcq eq_refl).
    destruct (start_bots_trace (before ++ b :: after)) as [-> _].
    apply join_bots_quiet in Hjoin as [-> _].
    destruct (negb (all results)); reflexivity.
  - repeat (progress (rewrite ?in_app_iff; simpl)). auto 10.
Qed.

Lemma interrupt_while_voting_still_tears_down_witness :
  exists ev,
    manager.vote_and_cleanup
      {| manager.driver_starts := fun _ => true;
         manager.browser_join := fun _ => scenario.lobby_page [scenario.accepted];
         manager.thread_join := fun i => if Nat.eqb i 1 then manager.Interrupt else manager.ThreadEnded;
         manager.driver_quit := fun _ => None |}
      ([bot.new_bot 0 1 "user0001" 0] ++ bot.new_bot 1 1 "user0002" 1
         :: [bot.new_bot 2 1 "user0003" 2])
      [true; true; true]
    = (Ok tt, ev)
    /\ threads_joined ev = map bot.index [bot.new_bot 0 1 "user0001" 0]
    /\ sessions_closed ev
       = map bot.driver ([bot.new_bot 0 1 "user0001" 0] ++ bot.new_bot 1 1 "user0002" 1
                           :: [bot.new_bot 2 1 "user0003" 2])
    /\ In (Log INFO "Stopping bots.") ev.
Proof.
  apply interrupt_while_voting_still_tears_down; try reflexivity.
  intros x Hx. apply list_elem_of_singleton in Hx. subst x. reflexivity.
Defined.

(** X16. When the thread of a bot never ends and no interrupt comes
    before its [join], [run] stays blocked in that [join]: it does not
    return and no session is closed. *)
Theorem endless_thread_blocks_teardown (w : manager.world)
    (before : list bot.Bot) (b : bot.Bot) (after : list bot.Bot) (results : list bool) :
  any results = true ->
  (forall x, x ∈ before -> manager.thread_join w (bot.index x) = manager.ThreadEnded) ->
  manager.thread_join w (bot.index b) = manager.NeverEnds ->
  exists ev,
    manager.vote_and_cleanup w (before ++ b :: after) results = (Pending, ev)
    /\ sessions_closed ev = []
    /\ threads_started ev = map bot.index (before ++ b :: after).
Proof.
  intros Hany Hbefore Hb.
  destruct (join_bots_until w before b after Hbefore) as (evj & Hjoin & Hj).
  { rewrite Hb. discriminate. }
  rewrite Hb in Hjoin.
  unfold manager.vote_and_cleanup. rewrite Hany, Hjoin. simpl negb. cbv iota.
  eexists. split; [reflexivity |].
  destruct (start_bots_trace (before ++ b :: after)) as [Hsq Hss].
  apply join_bots_quiet in Hjoin as [Hjq Hjs].
  trace_norm. rewrite Hsq, Hss, Hjq, Hjs.
  destruct (negb (all results)); simpl; rewrite ?app_nil_r; auto.
Qed.

Lemma endless_thread_blocks_teardown_witness :
  exists ev,
    manager.vote_and_cleanup
      {| manager.driver_starts := fun _ => true;
         manager.browser_join := fun _ => scenario.lobby_page [scenario.accepted];
         manager.thread_join := fun i => if Nat.eqb i 1 then manager.NeverEnds else manager.ThreadEnded;
         manager.driver_quit := fun _ => None |}
      ([bot.new_bot 0 1 "user0001" 0] ++ bot.new_bot 1 1 "user0002" 1 :: [])
      [true; false]
    = (Pending, ev)
    /\ sessions_closed ev = []
    /\ threads_started ev
       = map bot.index ([bot.new_bot 0 1 "user0001" 0] ++ bot.new_bot 1 1 "user0002" 1 :: []).
Proof.
  apply endless_thread_blocks_teardown; try reflexivity.
  intros x Hx. apply list_elem_of_singleton in Hx. subst x. reflexivity.
Defined.

Lemma create_bot_started (w : manager.world) (i : nat) (st st' : manager.shared)
    (b : bot.Bot) (ev : list event) :
  manager.create_bot w i st = (Ok b, ev, st') -> manager.driver_starts w i = true.
Proof.
  unfold manager.create_bot, manager.create_driver.
  destruct (manager.generate_unused_username st) as [[u st1] | e |]; try discriminate.
  destruct (manager.chrome_version (snd st1)); [| discriminate].
  destruct (manager.driver_starts w i); [reflexivity | discriminate].
Qed.

Lemma create_bots_started (w : manager.world) (indices : list nat) :
  forall st rs ev st' bs,
    manager.create_bots w indices st = (rs, ev, st') ->
    manager.gather rs = Ok bs ->
    forall i, i ∈ indices -> manager.driver_starts w i = true.
Proof.
  induction indices as [| j rest IH]; intros st rs ev st' bs; simpl.
  - intros _ _ i Hi. inversion Hi.
  - destruct (manager.create_bot w j st) as [[r1 e1] s1] eqn:Hone.
    destruct (manager.create_bots w rest s1) as [[rs2 e2] s2] eqn:Hrest.
    intros [= <- <- <-] Hg i Hi.
    destruct r1 as [b | e |]; [| exfalso; exact (gather_raise_not_ok _ _ _ Hg) | discriminate].
    apply gather_ok_cons in Hg as (xs & Hg & ->).
    apply elem_of_cons in Hi as [-> | Hi].
    + exact (create_bot_started _ _ _ _ _ _ Hone).
    + exact (IH _ _ _ _ _ Hrest Hg i Hi).
Qed.

(** X17. If Chrome fails to start for one of the bots, [run] does not
    return normally and never reaches [cleanup]: no session is closed, so
    the browsers that did start are left running, and no thread is
    started. *)
Theorem failed_driver_start_skips_teardown (w : manager.world) (draws : list Z)
    (m : manager.BotManager) (i : nat) :
  (i < Z.to_nat (manager.bot_count m))%nat ->
  manager.driver_starts w i = false ->
  let '(r, ev, _) := manager.run w draws m in
  r <> Ok tt /\ sessions_closed ev = [] /\ threads_started ev = [].
Proof.
  intros Hi Hfail. unfold manager.run.
  destruct (manager.bot_count m <? 1); [repeat split; discriminate |].
  destruct (manager.create_bots _ _ _) as [[created ev1] st1] eqn:Hcreate.
  pose proof (create_bots_quiet _ _ _ _ _ _ Hcreate) as [Hq Hs].
  destruct (manager.gather created) as [bs0 | e |] eqn:Hgather.
  - exfalso.
    rewrite (create_bots_started _ _ _ _ _ _ _ Hcreate Hgather i) in Hfail; [discriminate |].
    apply elem_of_seq. lia.
  - trace_norm. rewrite Hq, Hs. repeat split; discriminate.
  - trace_norm. rewrite Hq, Hs. repeat split; discriminate.
Qed.

Lemma failed_driver_start_skips_teardown_witness :
  let '(r, ev, _) :=
    manager.run
      {| manager.driver_starts := fun i => negb (Nat.eqb i 2);
         manager.browser_join := fun _ => scenario.lobby_page [scenario.accepted];
         manager.thread_join := fun _ => manager.ThreadEnded;
         manager.driver_quit := fun _ => None |}
      [1; 2; 3] (scenario.provisioned 123456789 3) in
  r <> Ok tt /\ sessions_closed ev = [] /\ threads_started ev = [].
Proof.
  apply (failed_driver_start_skips_teardown
           {| manager.driver_starts := fun i => negb (Nat.eqb i 2);
              manager.browser_join := fun _ => scenario.lobby_page [scenario.accepted];
              manager.thread_join := fun _ => manager.ThreadEnded;
              manager.driver_quit := fun _ => None |}
           [1; 2; 3] (scenario.provisioned 123456789 3) 2%nat); [simpl; lia | reflexivity].
Defined.

(** *** The list of claimed names only grows *)

Lemma allocator_returns_a_candidate (draws : list Z) (g : list string)
    (username : string) (g' : list string) (draws' : list Z) :
  allocator.generate_unused_username draws g = Ok (username, g', draws') ->
  username ∈ allocator.all_candidates.
Proof.
  induction draws as [| r draws IH]; [discriminate |].
  rewrite generate_unused_username_cons, candidate_value.
  destruct (bool_decide _); [exact IH |].
  intros [= <- <- <-]. apply candidate_in_all_candidates.
Qed.

Lemma grown_from_refl (g : list string) (m : manager.BotManager) :
  manager.generated_usernames m = Some g -> grown_from g m.
Proof.
  intros Hg. exists []. rewrite app_nil_r. split; [exact Hg |].
  intros x Hx. inversion Hx.
Qed.

Lemma method_grows (g0 : list string) (st st' : manager.shared) (username : string) :
  manager.generate_unused_username st = Ok (username, st') ->
  grown_from g0 (snd st) -> grown_from g0 (snd st').
Proof.
  destruct st as [draws m]. unfold manager.generate_unused_username. simpl.
  intros Hcall (new & Hg & Hnew). rewrite Hg in Hcall.
  destruct (allocator.generate_unused_username draws (g0 ++ new)) as [[[u g'] d'] | e |] eqn:E;
    simpl in Hcall; try discriminate.
  injection Hcall as <- <-.
  pose proof (allocator_returns_a_candidate _ _ _ _ _ E) as Hcand.
  apply generate_unused_username_returns in E as [_ ->].
  exists (new ++ [u]). simpl. rewrite app_assoc. split; [reflexivity |].
  intros x Hx. apply elem_of_app in Hx as [Hx | Hx]; [auto |].
  apply list_elem_of_singleton in Hx. subst x. exact Hcand.
Qed.

Lemma name_loop_grows (g0 : list string) (attempts : list bot.name_attempt) :
  forall b st r b' st' ev,
    bot.name_loop manager.generate_unused_username attempts b st = (r, b', st', ev) ->
    grown_from g0 (snd st) -> grown_from g0 (snd st').
Proof.
  induction attempts as [| a rest IH]; intros b st r b' st' ev; simpl.
  - intros [= <- <- <- <-]. auto.
  - destruct (bot.send_name b a) as [[[| |] | e |] ev0];
      try (intros [= <- <- <- <-]; auto; fail).
    destruct (manager.generate_unused_username st) as [[new_name st1] | e |] eqn:Hcall;
      try (intros [= <- <- <- <-]; auto; fail).
    destruct (bot.name_loop _ rest _ st1) as [[[r1 b1] st2] ev1] eqn:Hloop.
    intros [= <- <- <- <-] Hgrown.
    apply (IH _ _ _ _ _ _ Hloop). exact (method_grows _ _ _ _ Hcall Hgrown).
Qed.

Lemma prepare_bots_grows (g0 : list string) (w : manager.world) (bs : list bot.Bot) :
  forall st rs bs' ev st',
    manager.prepare_bots w bs st = (rs, bs', ev, st') ->
    grown_from g0 (snd st) -> grown_from g0 (snd st').
Proof.
  induction bs as [| b rest IH]; intros st rs bs' ev st'; simpl.
  - intros [= <- <- <- <-]. auto.
  - destruct (bot.prepare _ b _ st) as [[[r1 b1] st1] ev1] eqn:Hprep.
    destruct (manager.prepare_bots w rest st1) as [[[rs2 bs2] ev2] st2] eqn:Hrest.
    intros [= <- <- <- <-] Hgrown. apply (IH _ _ _ _ _ Hrest).
    revert Hprep. unfold bot.prepare.
    destruct (bot.open_url _); try (intros [= <- <- <- <-]; auto; fail).
    destruct (bot.join_lobby _ _) as [[u | e |] ev0];
      try (intros [= <- <- <- <-]; auto; fail).
    destruct (bot.name_loop _ _ _ st) as [[[r3 b3] st3] ev3] eqn:Hloop.
    intros [= <- <- <- <-]. exact (name_loop_grows _ _ _ _ _ _ _ _ Hloop Hgrown).
Qed.

Lemma create_bots_grows (g0 : list string) (w : manager.world) (indices : list nat) :
  forall st rs ev st',
    manager.create_bots w indices st = (rs, ev, st') ->
    grown_from g0 (snd st) -> grown_from g0 (snd st').
Proof.
  induction indices as [| i rest IH]; intros st rs ev st'; simpl.
  - intros [= <- <- <-]. auto.
  - destruct (manager.create_bot w i st) as [[r1 ev1] st1] eqn:Hone.
    destruct (manager.create_bots w rest st1) as [[rs2 ev2] st2] eqn:Hrest.
    intros [= <- <- <-] Hgrown. apply (IH _ _ _ _ Hrest).
    revert Hone. unfold manager.create_bot.
    destruct (manager.generate_unused_username st) as [[u s1] | e |] eqn:Hcall;
      try (intros [= <- <- <-]; auto; fail).
    pose proof (method_grows _ _ _ _ Hcall Hgrown) as Hgrown1.
    destruct (manager.create_driver w (snd s1) i) as [[d | e |] ev'];
      intros [= <- <- <-]; exact Hgrown1.
Qed.

Lemma grown_from_set_bots (g0 : list string) (m : manager.BotManager) (bs : list bot.Bot) :
  grown_from g0 m -> grown_from g0 (manager.set_bots m bs).
Proof. intros (new & Hg & Hnew). exists new. auto. Qed.

(** X18. [run] only ever appends to [generated_usernames], and only
    names among [user0000] ... [user9999]: whatever its outcome, the list
    afterwards is the list before followed by candidate names. *)
Theorem run_only_appends_candidates (w : manager.world) (draws : list Z)
    (m : manager.BotManager) (g : list string) :
  manager.generated_usernames m = Some g ->
  exists new,
    manager.generated_usernames (snd (manager.run w draws m)) = Some (g ++ new)
    /\ forall x, x ∈ new -> x ∈ allocator.all_candidates.
Proof.
  intros Hg. apply grown_from_refl in Hg.
  change (grown_from g (snd (manager.run w draws m))).
  unfold manager.run.
  destruct (manager.bot_count m <? 1); [exact Hg |].
  destruct (manager.create_bots _ _ _) as [[created ev1] st1] eqn:Hcreate.
  pose proof (create_bots_grows g _ _ _ _ _ _ Hcreate Hg) as Hg1.
  destruct (manager.gather created) as [bs0 | e |]; try exact Hg1.
  destruct (manager.prepare_bots _ _ _) as [[[prepared bs'] ev3] st2] eqn:Hprep.
  pose proof (prepare_bots_grows g _ _ _ _ _ _ _ Hprep (grown_from_set_bots _ _ _ Hg1)) as Hg2.
  destruct (manager.gather prepared) as [results | e |];
    try (apply grown_from_set_bots; exact Hg2).
  destruct (manager.vote_and_cleanup _ _ _) as [r4 ev4].
  apply grown_from_set_bots. exact Hg2.
Qed.

Lemma run_only_appends_candidates_witness :
  exists new,
    manager.generated_usernames
      (snd (manager.run scenario.bot1_collides [7; 7; 8; 9; 10]
              (manager.set_generated_usernames (scenario.provisioned 123456789 3)
                 ["guest"])))
    = Some (["guest"] ++ new)
    /\ forall x, x ∈ new -> x ∈ allocator.all_candidates.
Proof.
  apply run_only_appends_candidates. reflexivity.
Defined.

(** *** The candidate names *)

Lemma candidate_number_decodes :
  forallb (fun n => bool_decide
                      (candidate_number ("user" +:+ rjust 4 "0" (str (Z.of_nat n))) = Some n))
          (seq 0 (Z.to_nat 10000)) = true.
Proof. vm_compute. reflexivity. Qed.

(** X20. The names [user0000] ... [user9999] are pairwise distinct, each
    is 8 characters long, and the number a name was built from can be
    read back from it: the allocator has exactly 10000 names to give. *)
Theorem all_candidates_distinct :
  NoDup allocator.all_candidates
  /\ length allocator.all_candidates = Z.to_nat 10000
  /\ forall r, exists name,
      allocator.candidate r = Ok name
      /\ candidate_number name = Some (Z.to_nat (r mod 10000))
      /\ name ∈ allocator.all_candidates.
Proof.
  assert (Hdecode : forall n, (n < Z.to_nat 10000)%nat ->
             candidate_number ("user" +:+ rjust 4 "0" (str (Z.of_nat n))) = Some n).
  { intros n Hn. pose proof candidate_number_decodes as Hall.
    rewrite forallb_forall in Hall. specialize (Hall n).
    apply bool_decide_eq_true in Hall; [exact Hall |]. apply in_seq. lia. }
  split; [| split].
  - unfold allocator.all_candidates. apply NoDup_fmap_2_strong; [| apply NoDup_seq].
    intros x y Hx Hy Heq. apply elem_of_seq in Hx, Hy.
    assert (Some x = Some y) as [= ->]; [| reflexivity].
    rewrite <- (Hdecode x), <- (Hdecode y) by lia. rewrite Heq. reflexivity.
  - unfold allocator.all_candidates. rewrite length_map, length_seq. reflexivity.
  - intros r. rewrite candidate_value. eexists. split; [reflexivity |].
    assert (0 <= r mod 10000 < 10000) by (apply Z.mod_pos_bound; lia).
    split; [| apply candidate_in_all_candidates].
    rewrite <- (Z2Nat.id (r mod 10000)) at 1 by lia. apply Hdecode. lia.
Qed.

(** ** More on the bot *)

Lemma name_loop_flag {St : Type} (request : St -> outcome (string * St))
    (attempts : list bot.name_attempt) :
  forall b st r b' st' ev,
    bot.name_loop request attempts b st = (r, b', st', ev) ->
    bot.preparing b' = (if returned r then false else bot.preparing b)
    /\ bot.voting b' = bot.voting b /\ bot.lobby_id b' = bot.lobby_id b.
Proof.
  induction attempts as [| a rest IH]; intros b st r b' st' ev; simpl.
  - intros [= <- <- <- <-]. auto.
  - destruct (bot.send_name b a) as [[[| |] | e |] ev0];
      try (intros [= <- <- <- <-]; auto; fail).
    destruct (request st) as [[new_name st1] | e |];
      try (intros [= <- <- <- <-]; auto; fail).
    destruct (bot.name_loop request rest _ st1) as [[[r1 b1] st2] ev1] eqn:Hloop.
    intros [= <- <- <- <-]. exact (IH _ _ _ _ _ _ Hloop).
Qed.

(** X22. [prepare] resets [preparing] exactly when it returns, with
    [True] or with [False]; when an exception leaves it (or it never
    ends) the flag stays set. It never touches [voting], the lobby id,
    the index or the session of the bot. *)
Theorem prepare_resets_flag_only_on_return {St : Type}
    (request : St -> outcome (string * St)) (b : bot.Bot) (s : bot.join_script) (st : St) :
  let '(r, b', _, _) := bot.prepare request b s st in
  bot.preparing b' = negb (returned r)
  /\ bot.voting b' = bot.voting b
  /\ bot.lobby_id b' = bot.lobby_id b
  /\ bot.index b' = bot.index b
  /\ bot.driver b' = bot.driver b.
Proof.
  destruct (bot.prepare request b s st) as [[[r b'] st'] ev] eqn:Hprep.
  pose proof (prepare_quiet request b s st _ _ _ _ Hprep) as (_ & _ & Hd & Hi).
  revert Hprep. unfold bot.prepare.
  destruct (bot.open_url s); try (intros [= <- <- <- <-]; auto; fail).
  destruct (bot.join_lobby _ s) as [[u | e |] ev0];
    try (intros [= <- <- <- <-]; auto; fail).
  destruct (bot.name_loop request _ _ st) as [[[r1 b1] st1] ev1] eqn:Hloop.
  intros [= <- <- <- <-].
  apply name_loop_flag in Hloop as (Hp & Hv & Hl).
  rewrite Hp, Hv, Hl. simpl. destruct (returned r1); auto.
Qed.

Section voting_more.
Context (vote_function : Z -> Z -> outcome Z) (browser : nat -> bot.tick).

Lemma step_finished (t : bot.thread) :
  bot.at_pc t = bot.Finished -> bot.step vote_function browser t = t.
Proof. intros Hpc. unfold bot.step. rewrite Hpc. reflexivity. Qed.

(** One interval on a page that shows the end of the game. *)
Lemma step_game_over (t : bot.thread) :
  bot.check_game_over (bot.current_url (browser (bot.now t))) = true ->
  bot.clicks (bot.step vote_function browser t) = bot.clicks t
  /\ (bot.running (bot.at_pc t) = true ->
      bot.now (bot.step vote_function browser t) = S (bot.now t))
  /\ match bot.at_pc t with
     | bot.Entry => bot.at_pc (bot.step vote_function browser t) = bot.LoopHead
     | bot.LoopHead =>
         bot.at_pc (bot.step vote_function browser t) = bot.Finished
         /\ bot.voting (bot.self (bot.step vote_function browser t)) = false
     | bot.VotePoll => bot.at_pc (bot.step vote_function browser t) = bot.VoteChoose
     | bot.VoteChoose => bot.at_pc (bot.step vote_function browser t) = bot.WaitRound
     | bot.WaitRound => bot.at_pc (bot.step vote_function browser t) = bot.LoopHead
     | _ => True
     end.
Proof.
  intros Hover. unfold bot.step. rewrite Hover.
  destruct (bot.at_pc t); simpl; rewrite ?app_nil_r;
    repeat split; try reflexivity; intros; discriminate.
Qed.
End voting_more.

(** X23. Once the page shows the end of the game and keeps showing it,
    a running voting thread is gone within four polling intervals,
    wherever it was, with [voting] reset and without another click. *)
Theorem vote_loop_ends_at_game_over (vote_function : Z -> Z -> outcome Z)
    (browser : nat -> bot.tick) (t : bot.thread) :
  bot.running (bot.at_pc t) = true ->
  (forall k, (bot.now t <= k)%nat ->
             bot.check_game_over (bot.current_url (browser k)) = true) ->
  let t' := bot.steps vote_function browser 4 t in
  bot.at_pc t' = bot.Finished
  /\ bot.voting (bot.self t') = false
  /\ bot.clicks t' = bot.clicks t.
Proof.
  intros Hrun Hover. cbv zeta.
  assert (Hstep : forall u, bot.running (bot.at_pc u) = true -> (bot.now t <= bot.now u)%nat ->
             bot.clicks (bot.step vote_function browser u) = bot.clicks u
             /\ bot.now (bot.step vote_function browser u) = S (bot.now u)
             /\ match bot.at_pc u with
                | bot.Entry => bot.at_pc (bot.step vote_function browser u) = bot.LoopHead
                | bot.LoopHead =>
                    bot.at_pc (bot.step vote_function browser u) = bot.Finished
                    /\ bot.voting (bot.self (bot.step vote_function browser u)) = false
                | bot.VotePoll => bot.at_pc (bot.step vote_function browser u) = bot.VoteChoose
                | bot.VoteChoose => bot.at_pc (bot.step vote_function browser u) = bot.WaitRound
                | bot.WaitRound => bot.at_pc (bot.step vote_function browser u) = bot.LoopHead
                | _ => True
                end).
  { intros u Hu Hle.
    destruct (step_game_over vote_function browser u (Hover _ Hle)) as (Hc & Hn & Hpc).
    auto. }
  assert (Hunfold : bot.steps vote_function browser 4 t
                    = bot.step vote_function browser
                        (bot.step vote_function browser
                           (bot.step vote_function browser
                              (bot.step vote_function browser t)))) by reflexivity.
  rewrite Hunfold. clear Hunfold.
  assert (Hhead : forall u, bot.at_pc u = bot.LoopHead -> (bot.now t <= bot.now u)%nat ->
             bot.at_pc (bot.step vote_function browser u) = bot.Finished
             /\ bot.voting (bot.self (bot.step vote_function browser u)) = false
             /\ bot.clicks (bot.step vote_function browser u) = bot.clicks u).
  { intros u Hu Hle.
    destruct (Hstep u) as (Hc & _ & Hpc); [rewrite Hu; reflexivity | exact Hle |].
    rewrite Hu in Hpc. destruct Hpc as [Hfin Hvot]. auto. }
  destruct (bot.at_pc t) eqn:Hpc; try discriminate.
  - (* Entry *)
    destruct (Hstep t) as (Hc & Hn & Hp); [rewrite Hpc; reflexivity | lia |].
    rewrite Hpc in Hp.
    destruct (Hhead _ Hp ltac:(lia)) as (H1 & H2 & H3).
    rewrite !(step_finished vote_function browser _ H1). rewrite H1, H2, H3, Hc. auto.
  - (* LoopHead *)
    destruct (Hhead t Hpc ltac:(lia)) as (H1 & H2 & H3).
    rewrite !(step_finished vote_function browser _ H1). auto.
  - (* VotePoll *)
    destruct (Hstep t) as (Hc & Hn & Hp); [rewrite Hpc; reflexivity | lia |].
    rewrite Hpc in Hp.
    destruct (Hstep (bot.step vote_function browser t)) as (Hc1 & Hn1 & Hp1);
      [rewrite Hp; reflexivity | lia |].
    rewrite Hp in Hp1.
    destruct (Hstep (bot.step vote_function browser (bot.step vote_function browser t)))
      as (Hc2 & Hn2 & Hp2); [rewrite Hp1; reflexivity | lia |].
    rewrite Hp1 in Hp2.
    destruct (Hhead _ Hp2 ltac:(lia)) as (H1 & H2 & H3).
    rewrite H1, H2, H3, Hc2, Hc1, Hc. auto.
  - (* VoteChoose *)
    destruct (Hstep t) as (Hc & Hn & Hp); [rewrite Hpc; reflexivity | lia |].
    rewrite Hpc in Hp.
    destruct (Hstep (bot.step vote_function browser t)) as (Hc1 & Hn1 & Hp1);
      [rewrite Hp; reflexivity | lia |].
    rewrite Hp in Hp1.
    destruct (Hhead _ Hp1 ltac:(lia)) as (H1 & H2 & H3).
    rewrite !(step_finished vote_function browser _ H1). rewrite H1, H2, H3, Hc1, Hc. auto.
  - (* WaitRound *)
    destruct (Hstep t) as (Hc & Hn & Hp); [rewrite Hpc; reflexivity | lia |].
    rewrite Hpc in Hp.
    destruct (Hhead _ Hp ltac:(lia)) as (H1 & H2 & H3).
    rewrite !(step_finished vote_function browser _ H1). rewrite H1, H2, H3, Hc. auto.
Qed.

Lemma vote_loop_ends_at_game_over_witness :
  let t' := bot.steps allocator.vote_function
              (fun _ => {| bot.current_url := "https://kahoot.it/ranking";
                           bot.answer_buttons := None; bot.draw := 0;
                           bot.stop_signal := false |})
              4 scenario.waiting_thread in
  bot.at_pc t' = bot.Finished
  /\ bot.voting (bot.self t') = false
  /\ bot.clicks t' = bot.clicks scenario.waiting_thread.
Proof.
  apply (vote_loop_ends_at_game_over allocator.vote_function
           (fun _ => {| bot.current_url := "https://kahoot.it/ranking";
                        bot.answer_buttons := None; bot.draw := 0;
                        bot.stop_signal := false |})
           scenario.waiting_thread); [reflexivity | intros k _; reflexivity].
Defined.

Lemma click_answer_cases (b : bot.Bot) (bs : list string) (vote_index : Z) :
  bot.click_answer b bs vote_index = []
  \/ (bot.click_answer b bs vote_index
      = [Click (bot.driver b) ("answer-" +:+ str vote_index)]
      /\ ("answer-" +:+ str vote_index) ∈ bs).
Proof.
  unfold bot.click_answer.
  destruct (find (String.eqb ("answer-" +:+ str vote_index)) bs) as [sel |] eqn:Hfind;
    [| left; reflexivity].
  apply find_some in Hfind as [Hin Heq]. apply String.eqb_eq in Heq. subst sel.
  right. split; [reflexivity | apply list_elem_of_In, Hin].
Qed.

(** X24. In one interval a voting thread clicks at most once, and only
    in the course of [vote], on a page that does not show the end of the
    game: the click goes to its own session, on the button among those
    found whose attribute is "answer-" followed by the index the vote
    function returned for their number. The session of the bot never
    changes. *)
Theorem step_clicks_chosen_answer_only (vote_function : Z -> Z -> outcome Z)
    (browser : nat -> bot.tick) (t : bot.thread) :
  bot.driver (bot.self (bot.step vote_function browser t)) = bot.driver (bot.self t)
  /\ (bot.clicks (bot.step vote_function browser t) = bot.clicks t
      \/ exists bs vote_index,
          bot.at_pc t = bot.VoteChoose
          /\ bot.check_game_over (bot.current_url (browser (bot.now t))) = false
          /\ bot.buttons t = Some bs
          /\ vote_function (Z.of_nat (length bs)) (bot.draw (browser (bot.now t)))
             = Ok vote_index
          /\ ("answer-" +:+ str vote_index) ∈ bs
          /\ bot.clicks (bot.step vote_function browser t)
             = bot.clicks t ++ [Click (bot.driver (bot.self t))
                                  ("answer-" +:+ str vote_index)]).
Proof.
  unfold bot.step.
  assert (Hdrv : bot.driver (if bot.stop_signal (browser (bot.now t))
                             then bot.set_voting (bot.self t) false else bot.self t)
                 = bot.driver (bot.self t))
    by (destruct (bot.stop_signal _); reflexivity).
  revert Hdrv.
  generalize (if bot.stop_signal (browser (bot.now t))
              then bot.set_voting (bot.self t) false else bot.self t) as b0.
  intros b0 Hdrv.
  destruct (bot.at_pc t) eqn:Hpc; cbn [bot.goto bot.self bot.clicks].
  - rewrite app_nil_r. auto.
  - destruct (_ && _); cbn [bot.goto bot.self bot.clicks]; rewrite app_nil_r; auto.
  - destruct (negb _); [destruct (bot.answer_buttons _) |];
      cbn [bot.goto bot.self bot.clicks]; rewrite app_nil_r; auto.
  - destruct (bot.check_game_over _) eqn:Hover;
      [cbn [bot.goto bot.self bot.clicks]; rewrite app_nil_r; auto |].
    destruct (bot.buttons t) as [bs |] eqn:Hbs;
      [| cbn [bot.goto bot.self bot.clicks]; rewrite app_nil_r; auto].
    destruct (vote_function _ _) as [vote_index | e |] eqn:Hvote;
      [| cbn [bot.goto bot.self bot.clicks]; rewrite app_nil_r; auto | auto].
    cbn [bot.goto bot.self bot.clicks]. split; [exact Hdrv |].
    destruct (click_answer_cases b0 bs vote_index) as [Hnone | [Hone Hin]].
    + left. rewrite Hnone. apply app_nil_r.
    + right. exists bs, vote_index. rewrite Hone, Hdrv. auto 10.
  - destruct (_ && _); cbn [bot.goto bot.self bot.clicks]; rewrite app_nil_r; auto.
  - auto.
  - auto.
Qed.

(** X25. [vote] reads the URL twice. If the page shows the end of the
    game at the test of its polling loop, so that no button was looked
    for, and no longer shows it at the [if] that follows, the thread
    dies of an [UnboundLocalError] on [answer_buttons]. *)
Theorem vote_crashes_when_game_over_page_goes_away (vote_function : Z -> Z -> outcome Z)
    (browser : nat -> bot.tick) (t : bot.thread) :
  bot.at_pc t = bot.VotePoll ->
  bot.buttons t = None ->
  bot.check_game_over (bot.current_url (browser (bot.now t))) = true ->
  bot.check_game_over (bot.current_url (browser (S (bot.now t)))) = false ->
  bot.at_pc (bot.steps vote_function browser 2 t)
  = bot.Crashed (UnboundLocalError "answer_buttons").
Proof.
  intros Hpc Hbs Hover Hback. simpl.
  assert (H1 : bot.step vote_function browser t
               = bot.goto t bot.VoteChoose
                   (if bot.stop_signal (browser (bot.now t))
                    then bot.set_voting (bot.self t) false else bot.self t) None []).
  { unfold bot.step. rewrite Hpc, Hover, Hbs. reflexivity. }
  rewrite H1. unfold bot.step. simpl. rewrite Hback. reflexivity.
Qed.

Lemma vote_crashes_when_game_over_page_goes_away_witness :
  bot.at_pc (bot.steps allocator.vote_function
               (fun k => {| bot.current_url :=
                              if Nat.eqb k 0 then "https://kahoot.it/ranking"
                              else "https://kahoot.it/gameblock";
                            bot.answer_buttons := None; bot.draw := 0;
                            bot.stop_signal := false |})
               2
               {| bot.at_pc := bot.VotePoll; bot.now := 0%nat;
                  bot.self := bot.new_bot 0 1 "user0001" 0;
                  bot.buttons := None; bot.clicks := [] |})
  = bot.Crashed (UnboundLocalError "answer_buttons").
Proof.
  apply vote_crashes_when_game_over_page_goes_away; reflexivity.
Defined.

(** X26. The vote function returns an index below the number of buttons
    for every positive number of them, and raises [ValueError] when
    there is none. *)
Theorem vote_function_any_count (answers_count r : Z) :
  (1 <= answers_count ->
   exists i, allocator.vote_function answers_count r = Ok i /\ 0 <= i < answers_count)
  /\ (answers_count <= 0 ->
      allocator.vote_function answers_count r
      = Raise (ValueError "empty range for randrange()")).
Proof.
  split.
  - intros Hn. exists (r mod answers_count). split.
    + apply vote_function_value. exact Hn.
    + apply Z.mod_pos_bound. lia.
  - intros Hn. unfold allocator.vote_function, randint.
    destruct (Z.leb_spec (answers_count - 1 - 0 + 1) 0); [reflexivity | lia].
Qed.

Lemma vote_function_any_count_witness :
  (exists i, allocator.vote_function 7 100 = Ok i /\ 0 <= i < 7)
  /\ allocator.vote_function 0 100 = Raise (ValueError "empty range for randrange()").
Proof.
  destruct (vote_function_any_count 7 100) as [Hpos _].
  destruct (vote_function_any_count 0 100) as [_ Hzero].
  split; [apply Hpos; lia | apply Hzero; lia].
Defined.
